(** * Token storage and native-app login of the Globus SDK

    A shallow embedding of
    - [globus_sdk/utils/token_storage.py]  (sectioned key/value token store),
    - [globus_sdk/config.py]               ([GlobusConfigParser]: get_section, set, remove),
    - [globus_sdk/auth/oauth2_native_app_shortcut.py]  ([native_auth]),
    - [globus_sdk/tokenstorage/file_adapters.py]       ([SimpleJSONFileAdapter]),
    followed by the properties of the specification that concern them.

    Conventions.  A Python [str] is a [string] whose characters are read as
    code points below 256.  A Python [int] is a [Z].  A Python [dict] is an
    association list in insertion order with unique keys ([pydict]); the
    sections of a [ConfigParser] are finite maps.  A raised exception is the
    [Raise] case of [result]; functions that touch the configuration, the
    clock or a collaborator are state transformers over [world]. *)

From Stdlib Require Import ZArith QArith_base Ascii.
From Stdlib Require Import DecimalString DecimalPos DecimalZ.
From stdpp Require Import base tactics option list gmap strings.

Local Open Scope Z_scope.
Local Set Warnings "-register-all".

(** ** Exceptions *)

Inductive exn :=
  | ConfigError              (* globus_sdk.exc.ConfigError *)
  | LoadedTokensExpired      (* subclass of ConfigError *)
  | RequestedScopesMismatch  (* subclass of ConfigError *)
  | ValueError
  | TypeError
  | KeyError
  | AttributeError
  | NoSectionError           (* configparser *)
  | InterpolationError       (* configparser: syntax, missing option, depth *)
  | AuthAPIError             (* globus_sdk.exc: the service rejected the call *)
  | NetworkError             (* globus_sdk.exc: the service was not reached *)
  | FileNotFoundError
  | LocalServerError.        (* globus_sdk.utils.local_server *)

Global Instance exn_eq_dec : EqDecision exn.
Proof. solve_decision. Defined.

(** Modelled from the spec: the class hierarchy of [globus_sdk/exc.py],
    which is not among the sources.  An expired or mismatched store is a
    validation failure that the login "catches locally" with its
    [except ConfigError]; [clear_tokens] lists [LoadedTokensExpired] before
    [ConfigError].  Both are subclasses of [ConfigError], and
    [except ConfigError] catches the class and its subclasses. *)
Definition is_ConfigError (e : exn) : bool :=
  match e with
  | ConfigError | LoadedTokensExpired | RequestedScopesMismatch => true
  | _ => false
  end.

Inductive result (A : Type) :=
  | Ok (a : A)
  | Raise (e : exn).
Arguments Ok {A} a.
Arguments Raise {A} e.

Global Instance result_ret : MRet result := λ A a, Ok a.
Global Instance result_bind : MBind result := λ A B k r,
  match r with
  | Ok a => k a
  | Raise e => Raise e
  end.

Definition is_ok {A} (r : result A) : bool :=
  match r with
  | Ok _ => true
  | Raise _ => false
  end.

Fixpoint rmapM {A B} (f : A → result B) (l : list A) : result (list B) :=
  match l with
  | [] => Ok []
  | a :: l' => b ← f a; bs ← rmapM f l'; Ok (b :: bs)
  end.

(** ** Python strings *)

Module Py.

(** [c in s] for a one-character needle. *)
Fixpoint contains (c : ascii) (s : string) : bool :=
  match s with
  | EmptyString => false
  | String a s' => if Ascii.eqb a c then true else contains c s'
  end.

Fixpoint map_chars (f : ascii → ascii) (s : string) : string :=
  match s with
  | EmptyString => EmptyString
  | String a s' => String (f a) (map_chars f s')
  end.

(** [s.replace(".", "_")] *)
Definition replace_dot (s : string) : string :=
  map_chars (λ a, if Ascii.eqb a "." then "_"%char else a) s.

(** [s.lower()] on code points below 256: A-Z and the Latin-1 capitals. *)
Definition lower_char (a : ascii) : ascii :=
  let n := N_of_ascii a in
  if ((65 <=? n) && (n <=? 90))%N then ascii_of_N (n + 32)
  else if ((192 <=? n) && (n <=? 222) && negb (n =? 215))%N
       then ascii_of_N (n + 32)
  else a.
Definition lower (s : string) : string := map_chars lower_char s.

(** [str.isspace] on code points below 256. *)
Definition isspace (a : ascii) : bool :=
  let n := N_of_ascii a in
  ((9 <=? n) && (n <=? 13) || (28 <=? n) && (n <=? 32)
   || (n =? 133) || (n =? 160))%N.

(** [sep.join(l)] *)
Fixpoint join (sep : string) (l : list string) : string :=
  match l with
  | [] => ""
  | [s] => s
  | s :: l' => s +:+ sep +:+ join sep l'
  end.

(** [s.split(c)] for a one-character separator: never the empty list. *)
Fixpoint split_on (c : ascii) (s : string) : list string :=
  match s with
  | EmptyString => [""]
  | String a s' =>
      if Ascii.eqb a c then "" :: split_on c s'
      else match split_on c s' with
           | w :: ws => String a w :: ws
           | [] => [String a ""]
           end
  end.

(** [s.split()]: runs of whitespace separate, empty words are dropped. *)
Fixpoint split_ws_go (cur : option string) (s : string) : list string :=
  match s with
  | EmptyString => option_list (String.rev <$> cur)
  | String a s' =>
      if isspace a
      then option_list (String.rev <$> cur) ++ split_ws_go None s'
      else split_ws_go (Some (String a (default "" cur))) s'
  end.
Definition split_ws (s : string) : list string := split_ws_go None s.

(** [s.strip()] *)
Fixpoint lstrip (s : string) : string :=
  match s with
  | EmptyString => ""
  | String a s' => if isspace a then lstrip s' else s
  end.
Fixpoint rstrip (s : string) : string :=
  match s with
  | EmptyString => ""
  | String a s' =>
      match rstrip s' with
      | EmptyString => if isspace a then "" else String a ""
      | r => String a r
      end
  end.
Definition strip (s : string) : string := rstrip (lstrip s).

(** [str(z)] for an int. *)
Definition str_of_int (z : Z) : string :=
  NilZero.string_of_int (Z.to_int z).

(** The digit part of an int literal: decimal digits, with single
    underscores allowed between two digits. *)
Fixpoint int_digits (after_digit : bool) (s : string) : option Decimal.uint :=
  match s with
  | EmptyString => if after_digit then Some Decimal.Nil else None
  | String a s' =>
      if Ascii.eqb a "_"
      then (if after_digit then int_digits false s' else None)
      else uint_of_char a (int_digits true s')
  end.

(** [int(s)]: surrounding whitespace is ignored, one sign is allowed;
    anything else raises [ValueError]. *)
Definition int_of_str (s : string) : result Z :=
  let body sign t :=
    match int_digits false t with
    | Some d => Ok (sign * Z.of_uint d)
    | None => Raise ValueError
    end in
  match strip s with
  | String a t =>
      if Ascii.eqb a "-" then body (-1) t
      else if Ascii.eqb a "+" then body 1 t
      else body 1 (String a t)
  | EmptyString => body 1 ""
  end.

End Py.

(** ** Python dictionaries *)

Definition pydict (K V : Type) : Type := list (K * V).

Section pydict.
Context {K V : Type} `{EqDecision K}.

(** [d.get(k)] *)
Fixpoint dict_get (k : K) (d : pydict K V) : option V :=
  match d with
  | [] => None
  | (k', v) :: d' => if decide (k = k') then Some v else dict_get k d'
  end.

(** [d[k] = v]: an existing key keeps its place, a new one goes last. *)
Fixpoint dict_set (k : K) (v : V) (d : pydict K V) : pydict K V :=
  match d with
  | [] => [(k, v)]
  | (k', v') :: d' =>
      if decide (k = k') then (k', v) :: d' else (k', v') :: dict_set k v d'
  end.

Definition dict_keys (d : pydict K V) : list K := d.*1.
Definition dict_values (d : pydict K V) : list V := d.*2.

(** [d.update(new)] *)
Definition dict_update (d new : pydict K V) : pydict K V :=
  fold_left (λ acc kv, dict_set kv.1 kv.2 acc) new d.
End pydict.

(** ** [configparser.ConfigParser] (Python 3, default settings)

    The state of a parser is its DEFAULT section and its named sections.
    Option names go through [optionxform] (lower case); values are checked
    by [BasicInterpolation.before_set] when written and expanded by
    [before_get] when read through [items]. *)

Module ConfigParser.

Record t := mk {
  defaults : gmap string string;
  sections : gmap string (gmap string string);
}.

Definition DEFAULTSECT : string := "DEFAULT".
Definition MAX_INTERPOLATION_DEPTH : nat := 10.

Definition optionxform (option : string) : string := Py.lower option.

(** The text up to the first ")" and the text after it. *)
Fixpoint until_paren (s : string) : option (string * string) :=
  match s with
  | EmptyString => None
  | String a s' =>
      if Ascii.eqb a ")" then Some ("", s')
      else match until_paren s' with
           | Some (name, r) => Some (String a name, r)
           | None => None
           end
  end.

(** [_KEYCRE.match(rest)] for [_KEYCRE = %\(([^)]+)\)s]: the name and the
    text after the match. *)
Definition keycre_match (rest : string) : option (string * string) :=
  match rest with
  | String "%" (String "(" s) =>
      match until_paren s with
      | Some (String a name, String "s" r) => Some (String a name, r)
      | _ => None
      end
  | _ => None
  end.

(** [value.replace('%%', '')] *)
Fixpoint drop_escaped (s : string) : string :=
  match s with
  | String "%" (String "%" s') => drop_escaped s'
  | String a s' => String a (drop_escaped s')
  | EmptyString => ""
  end.

(** [_KEYCRE.sub('', value)] *)
Fixpoint drop_keys (fuel : nat) (s : string) : string :=
  match fuel, s with
  | S fuel', String a s' =>
      match keycre_match s with
      | Some (_, r) => drop_keys fuel' r
      | None => String a (drop_keys fuel' s')
      end
  | _, _ => ""
  end.

(** [BasicInterpolation.before_set] *)
Definition before_set (value : string) : result string :=
  let tmp_value := drop_escaped value in
  let tmp_value := drop_keys (String.length tmp_value) tmp_value in
  if Py.contains "%" tmp_value then Raise ValueError else Ok value.

(** [BasicInterpolation._interpolate_some]; [depth] counts the levels that
    remain before [InterpolationDepthError]. *)
Fixpoint interpolate_some (depth : nat) (map : gmap string string)
    (rest : string) : result string :=
  match depth with
  | O => Raise InterpolationError
  | S depth' =>
      (fix scan (fuel : nat) (rest : string) : result string :=
         match fuel, rest with
         | S fuel', String "%" (String "%" r) =>
             tail ← scan fuel' r; Ok (String "%" tail)
         | S fuel', String "%" (String "(" _) =>
             match keycre_match rest with
             | None => Raise InterpolationError
             | Some (name, r) =>
                 match map !! optionxform name with
                 | None => Raise InterpolationError
                 | Some v =>
                     v' ← (if Py.contains "%" v
                           then interpolate_some depth' map v else Ok v);
                     tail ← scan fuel' r;
                     Ok (v' +:+ tail)
                 end
             end
         | S fuel', String "%" _ => Raise InterpolationError
         | S fuel', String a r => tail ← scan fuel' r; Ok (String a tail)
         | _, _ => Ok ""
         end) (String.length rest) rest
  end.

(** [BasicInterpolation.before_get] *)
Definition before_get (map : gmap string string) (value : string)
    : result string :=
  interpolate_some MAX_INTERPOLATION_DEPTH map value.

Definition has_section (p : t) (section : string) : bool :=
  bool_decide (is_Some (sections p !! section)).

Definition add_section (p : t) (section : string) : result t :=
  if decide (section = DEFAULTSECT) then Raise ValueError
  else if has_section p section then Raise ValueError (* DuplicateSectionError *)
  else Ok (mk (defaults p) (<[section := ∅]> (sections p))).

(** [set]: an empty or DEFAULT section name addresses the defaults. *)
Definition set (p : t) (section option value : string) : result t :=
  value ← (if decide (value = "") then Ok value else before_set value);
  if decide (section = "" ∨ section = DEFAULTSECT)
  then Ok (mk (<[optionxform option := value]> (defaults p)) (sections p))
  else match sections p !! section with
       | None => Raise NoSectionError
       | Some sectdict =>
           Ok (mk (defaults p)
                  (<[section := <[optionxform option := value]> sectdict]>
                     (sections p)))
       end.

Definition remove_option (p : t) (section option : string)
    : result (bool * t) :=
  let option := optionxform option in
  if decide (section = "" ∨ section = DEFAULTSECT)
  then Ok (bool_decide (is_Some (defaults p !! option)),
           mk (delete option (defaults p)) (sections p))
  else match sections p !! section with
       | None => Raise NoSectionError
       | Some sectdict =>
           Ok (bool_decide (is_Some (sectdict !! option)),
               mk (defaults p)
                  (<[section := delete option sectdict]> (sections p)))
       end.

(** [dict(items(section))]: the section laid over the defaults, every
    value expanded; one value that does not expand fails the call. *)
Definition items (p : t) (section : string)
    : result (gmap string string) :=
  d ← match sections p !! section with
      | Some sectdict => Ok (sectdict ∪ defaults p)
      | None => if decide (section = DEFAULTSECT) then Ok (defaults p)
                else Raise NoSectionError
      end;
  if bool_decide (map_Forall (λ _ v, is_ok (before_get d v)) d)
  then Ok (omap (λ v, match before_get d v with
                      | Ok v' => Some v'
                      | Raise _ => None
                      end) d)
  else Raise InterpolationError.

End ConfigParser.

(** ** Values, events and the state of the process *)

(** The values a token field takes: [None], a [str] or an [int]. *)
Inductive tokval :=
  | TNone
  | TStr (s : string)
  | TInt (z : Z).

Global Instance tokval_eq_dec : EqDecision tokval.
Proof. solve_decision. Defined.

(** The values passed as keyword options: [None], a [bool], an [int], a
    [str], a tuple or list of strings, a dict of strings. *)
Inductive pyval :=
  | PNone
  | PBool (b : bool)
  | PInt (z : Z)
  | PStr (s : string)
  | PSeq (l : list string)
  | PDict (d : pydict string string).

Global Instance pyval_eq_dec : EqDecision pyval.
Proof. solve_decision. Defined.

(** Python truthiness. *)
Definition tok_truthy (v : tokval) : bool :=
  match v with
  | TNone => false
  | TStr s => negb (bool_decide (s = ""))
  | TInt z => negb (z =? 0)
  end.

Definition py_truthy (v : pyval) : bool :=
  match v with
  | PNone => false
  | PBool b => b
  | PInt z => negb (z =? 0)
  | PStr s => negb (bool_decide (s = ""))
  | PSeq l => negb (bool_decide (l = []))
  | PDict d => negb (bool_decide (d = []))
  end.

(** [set(v)] as the list of its elements; a str yields its characters. *)
Definition py_elements (v : pyval) : result (list string) :=
  match v with
  | PSeq l => Ok l
  | PStr s => Ok ((λ a, String a "") <$> String.list_ascii_of_string s)
  | PDict d => Ok (dict_keys d)
  | PNone | PBool _ | PInt _ => Raise TypeError
  end.

(** A credential set as the token store sees it: a dict of dicts. *)
Abbreviation token_set := (pydict string tokval).
Abbreviation token_dict := (pydict tokval token_set).

(** Calls that leave the process or touch collaborators, in order. *)
Inductive event :=
  | EvNativeAppAuthClient (client_id : pyval)
  | EvRevokeToken (access_token : tokval)
  | EvLoadTokens (config_section requested_scopes check_expired : pyval)
  | EvClearTokens (config_section client_id : pyval)
  | EvSaveTokens (tokens : token_dict) (config_section : pyval)
  | EvStartFlow (requested_scopes redirect_uri refresh_tokens
                 prefill_named_grant : pyval)
  | EvGetAuthorizeUrl (additional_params : pyval)
  | EvStartLocalServer (server_hostname server_port : pyval)
  | EvWaitForCode
  | EvBrowserOpen (url : string)
  | EvSafePrint (message : string)
  | EvInput
  | EvExchangeCode (auth_code : string).

Record world := mkWorld {
  (** [GlobusConfigParser._parser] of the process-wide singleton *)
  parser : ConfigParser.t;
  (** the file at [_write_path] as [ConfigParser.read] sees it; [None] when
      the file does not exist *)
  write_file : option ConfigParser.t;
  (** [time.time()] *)
  clock : Q;
  trace : list event;
  (** [logger.debug] *)
  log : list string;
}.

Definition M (A : Type) : Type := world → result A * world.

Global Instance M_ret : MRet M := λ A a w, (Ok a, w).
Global Instance M_bind : MBind M := λ A B k m w,
  match m w with
  | (Ok a, w') => k a w'
  | (Raise e, w') => (Raise e, w')
  end.

Definition raise {A} (e : exn) : M A := λ w, (Raise e, w).
Definition lift {A} (r : result A) : M A := λ w, (r, w).
Definition emit (ev : event) : M unit :=
  λ w, (Ok (), mkWorld (parser w) (write_file w) (clock w)
                       (trace w ++ [ev]) (log w)).
Definition debug (msg : string) : M unit :=
  λ w, (Ok (), mkWorld (parser w) (write_file w) (clock w)
                       (trace w) (log w ++ [msg])).

Fixpoint forM_ {A} (l : list A) (f : A → M unit) : M unit :=
  match l with
  | [] => mret ()
  | a :: l' => _ ← f a; forM_ l' f
  end.

(** ** [globus_sdk/config.py]: GlobusConfigParser *)

Module GlobusConfigParser.

Definition _GENERAL_CONF_SECTION : string := "general".

(** [get_section]: [None] when the section does not exist. *)
Definition get_section (section : option string) (w : world)
    : result (option (gmap string string)) :=
  match section with
  | Some s =>
      if ConfigParser.has_section (parser w) s
      then d ← ConfigParser.items (parser w) s; Ok (Some d)
      else Ok None
  | None => Ok None
  end.

(** [_get_write_config]: the file's content, or a parser holding an empty
    [general] section when there is no file. *)
Definition _get_write_config (w : world) : ConfigParser.t :=
  match write_file w with
  | Some cfg => cfg
  | None => ConfigParser.mk ∅ {[ _GENERAL_CONF_SECTION := ∅ ]}
  end.

(** [_save]: the file is kept as the parser that reading it back yields;
    writing is taken to succeed. *)
Definition _save (cfg : ConfigParser.t) : M unit :=
  λ w, (Ok (), mkWorld (parser w) (Some cfg) (clock w) (trace w) (log w)).

Definition set_parser (p : ConfigParser.t) : M unit :=
  λ w, (Ok (), mkWorld p (write_file w) (clock w) (trace w) (log w)).

Definition ensure_section (p : ConfigParser.t) (section : string)
    : result ConfigParser.t :=
  if ConfigParser.has_section p section then Ok p
  else ConfigParser.add_section p section.

(** [set(option, value, section)], with [name] for the option: the file
    first, then the parser in memory.  A section that is not a str fails in
    [add_section]. *)
Definition set (name value : string) (section : option string) : M unit :=
  match section with
  | None => raise TypeError
  | Some section =>
      λ w,
        (cfg ← lift (ensure_section (_get_write_config w) section);
         cfg ← lift (ConfigParser.set cfg section name value);
         _ ← _save cfg;
         p ← lift (ensure_section (parser w) section);
         p ← lift (ConfigParser.set p section name value);
         set_parser p) w
  end.

(** [remove(option, section)], with [name] for the option; a section of
    [None] is falsy and so addresses the defaults, like the empty name. *)
Definition remove (name : string) (section : option string) : M bool :=
  let section := default "" section in
  λ w,
    ('(removed, cfg) ← lift (ConfigParser.remove_option
                              (_get_write_config w) section name);
     _ ← _save cfg;
     '(_, p) ← lift (ConfigParser.remove_option (parser w) section name);
     _ ← set_parser p;
     mret removed) w.

End GlobusConfigParser.

(** ** Collaborators outside the repository's token code

    What the auth service, the local server and the terminal answer.  The
    answers do not depend on earlier calls. *)

Record collaborators := {
  (** [NativeAppAuthClient.oauth2_revoke_token]: [Some e] when it raises *)
  oauth2_revoke_token : tokval → option exn;
  (** [NativeAppAuthClient.oauth2_get_authorize_url] *)
  oauth2_get_authorize_url : pyval → string;
  (** [globus_sdk.utils.local_server.is_remote_session] *)
  is_remote_session : bool;
  (** [start_local_server(...)] followed by [server.wait_for_code()] *)
  wait_for_code : result string;
  (** [input()] *)
  input : string;
  (** [oauth2_exchange_code_for_tokens(code).by_resource_server] *)
  oauth2_exchange_code_for_tokens : string → result token_dict;
  (** [os.path.expanduser("~/.globus-native-apps.cfg")] *)
  expanduser_native_apps_cfg : string;
  (** [socket.gethostname()] *)
  gethostname : string;
  (** [globus_sdk.auth.oauth2_constants.DEFAULT_REQUESTED_SCOPES] *)
  DEFAULT_REQUESTED_SCOPES : pyval;
}.

(** ** [globus_sdk/utils/token_storage.py] *)

Module token_storage.

Definition TOKEN_KEYS : list string :=
  ["scope"; "access_token"; "refresh_token"; "token_type";
   "expires_at_seconds"; "resource_server"].
Definition REQUIRED_KEYS : list string :=
  ["scope"; "access_token"; "expires_at_seconds"; "resource_server"].
Definition CONFIG_TOKEN_GROUPS : string := "token_groups".

Definition _deserialize_token (grouping token : string) : string :=
  grouping +:+ token.

Definition _serialize_token (resource_server token : string) : string :=
  Py.replace_dot resource_server +:+ "_" +:+ token.

(** [token_set["resource_server"]] where a str is needed: a missing key
    is a [KeyError], [None] or an int has no [replace]. *)
Definition resource_server_of (token_set : token_set) : result string :=
  match dict_get "resource_server" token_set with
  | None => Raise KeyError
  | Some (TStr s) => Ok s
  | Some _ => Raise AttributeError
  end.

(** ints become their decimal text, [None] the empty string *)
Definition serialize_value (value : tokval) : string :=
  match value with
  | TInt z => Py.str_of_int z
  | TNone => ""
  | TStr s => s
  end.

(** The body of the outer loop of [_serialize_token_groups], on the pair
    [(serialized_items, token_groups)]. *)
Definition serialize_token_set (token_set : token_set)
    (acc : pydict string string * list string)
    : result (pydict string string * list string) :=
  rs ← resource_server_of token_set;
  Ok (fold_left
        (λ items kv,
           dict_set (_serialize_token rs kv.1) (serialize_value kv.2) items)
        token_set acc.1,
      acc.2 ++ [_serialize_token rs ""]).

Fixpoint serialize_loop (token_sets : list token_set)
    (acc : pydict string string * list string)
    : result (pydict string string * list string) :=
  match token_sets with
  | [] => Ok acc
  | token_set :: rest =>
      acc ← serialize_token_set token_set acc; serialize_loop rest acc
  end.

Definition _serialize_token_groups (tokens : token_dict)
    : result (pydict string string) :=
  acc ← serialize_loop (dict_values tokens) ([], []);
  Ok (dict_set CONFIG_TOKEN_GROUPS (Py.join "," acc.2) acc.1).

Definition save_tokens (tokens : token_dict) (config_section : option string)
    : M unit :=
  cfg_tokens ← lift (_serialize_token_groups tokens);
  forM_ cfg_tokens
    (λ kv, GlobusConfigParser.set kv.1 kv.2 config_section).

Definition of_config (v : option string) : tokval :=
  match v with
  | Some s => TStr s
  | None => TNone
  end.

(** One pass of the loop of [_deserialize_token_groups]: the token set
    read for [group], and the key it is stored under. *)
Definition deserialize_group (config_items : gmap string string)
    (group : string) : result (tokval * token_set) :=
  let tset : token_set :=
    (λ k, (k, of_config (config_items !! _deserialize_token group k)))
      <$> TOKEN_KEYS in
  expires ← match dict_get "expires_at_seconds" tset with
            | Some (TStr s) => Py.int_of_str s
            | _ => Raise TypeError
            end;
  let tset := dict_set "expires_at_seconds" (TInt expires) tset in
  let tset : token_set :=
    (λ kv, (kv.1, if tok_truthy kv.2 then kv.2 else TNone)) <$> tset in
  Ok (default TNone (dict_get "resource_server" tset), tset).

Fixpoint deserialize_loop (config_items : gmap string string)
    (groups : list string) (token_groups : token_dict) : result token_dict :=
  match groups with
  | [] => Ok token_groups
  | group :: rest =>
      '(rs, tset) ← deserialize_group config_items group;
      deserialize_loop config_items rest (dict_set rs tset token_groups)
  end.

(** [config_items] is what [get_section] returned: [None] has no [get]. *)
Definition _deserialize_token_groups
    (config_items : option (gmap string string)) : result token_dict :=
  match config_items with
  | None => Raise AttributeError
  | Some config_items =>
      match config_items !! CONFIG_TOKEN_GROUPS with
      | None => Raise AttributeError
      | Some tsets =>
          deserialize_loop config_items (Py.split_on "," tsets) []
      end
  end.

(** [[mk for mk in REQUIRED_KEYS if not tok_set.get(mk)]] *)
Definition missing_keys (tok_set : token_set) : list string :=
  filter (λ mk, tok_truthy (default TNone (dict_get mk tok_set)) = false)
         REQUIRED_KEYS.

(** [any(l)] on a list of strings *)
Definition any_str (l : list string) : bool :=
  existsb (λ s, negb (bool_decide (s = ""))) l.

(** [t["scope"].split()] *)
Definition scope_words (t : token_set) : result (list string) :=
  match dict_get "scope" t with
  | Some (TStr s) => Ok (Py.split_ws s)
  | Some _ => Raise AttributeError
  | None => Raise KeyError
  end.

(** [loaded_scopes.difference(set(requested_scopes))] *)
Definition scopes_difference (loaded_scopes requested : list string)
    : list string :=
  filter (λ s, s ∉ requested) (remove_dups loaded_scopes).

(** [time.time() >= t["expires_at_seconds"]] *)
Definition is_expired (now : Q) (t : token_set) : result bool :=
  match dict_get "expires_at_seconds" t with
  | Some (TInt z) => Ok (Qle_bool (inject_Z z) now)
  | Some _ => Raise TypeError
  | None => Raise KeyError
  end.

Definition load_tokens (config_section : option string)
    (requested_scopes : pyval) (check_expired : bool) (w : world)
    : result token_dict :=
  loaded_tokens ←
    match cfg_tokens ← GlobusConfigParser.get_section config_section w;
          _deserialize_token_groups cfg_tokens with
    | Ok loaded_tokens => Ok loaded_tokens
    | Raise _ => Raise ConfigError
    end;
  _ ← (if existsb (λ tok_set, any_str (missing_keys tok_set))
                  (dict_values loaded_tokens)
       then Raise ConfigError else Ok ());
  _ ← (if py_truthy requested_scopes then
         scope_lists ← rmapM scope_words (dict_values loaded_tokens);
         requested ← py_elements requested_scopes;
         match scopes_difference (concat scope_lists) requested with
         | [] => Ok ()
         | _ :: _ => Raise RequestedScopesMismatch
         end
       else Ok ());
  _ ← (if check_expired then
         expired ← rmapM (is_expired (clock w)) (dict_values loaded_tokens);
         if existsb id expired then Raise LoadedTokensExpired else Ok ()
       else Ok ());
  Ok loaded_tokens.

Definition tok_format (v : tokval) : string :=
  match v with
  | TNone => "None"
  | TStr s => s
  | TInt z => Py.str_of_int z
  end.

(** One pass of the loop of the [try] block of [clear_tokens]. *)
Definition revoke_one (env : collaborators) (tok_set : token_set) : M unit :=
  _ ← debug ("Revoking: " +:+
             tok_format (default TNone (dict_get "resource_server" tok_set)));
  access_token ← lift (match dict_get "access_token" tok_set with
                       | Some v => Ok v
                       | None => Raise KeyError
                       end);
  _ ← emit (EvRevokeToken access_token);
  match oauth2_revoke_token env access_token with
  | None => mret ()
  | Some e => raise e
  end.

Definition revoke_all (env : collaborators) (tokens : token_dict) : M unit :=
  forM_ (dict_values tokens) (revoke_one env).

(** What follows the [try] statement of [clear_tokens]. *)
Definition delete_tokens (tokens : token_dict)
    (config_section : option string) : M bool :=
  match tokens with
  | [] => mret false
  | _ :: _ =>
      cfg_tsets ← lift (_serialize_token_groups tokens);
      _ ← forM_ (dict_keys cfg_tsets) (λ cfg_token_name,
            _ ← GlobusConfigParser.remove cfg_token_name config_section;
            mret ());
      _ ← GlobusConfigParser.remove CONFIG_TOKEN_GROUPS config_section;
      mret true
  end.

(** [clear_tokens]: [tokens] is what the variable holds when the [try]
    block is left, [[]] if the load itself raised. *)
Definition clear_tokens (env : collaborators)
    (config_section : option string) (client_id : pyval) : M bool :=
  λ w,
    let handler (e : exn) (tokens : token_dict) : M bool :=
      if decide (e = LoadedTokensExpired) then
        λ w, match load_tokens config_section (PSeq []) false w with
             | Ok tokens => delete_tokens tokens config_section w
             | Raise e' => (Raise e', w)
             end
      else if is_ConfigError e then
        _ ← debug "ConfigError"; delete_tokens tokens config_section
      else raise e in
    let w := (emit (EvNativeAppAuthClient client_id) w).2 in
    match load_tokens config_section (PSeq []) true w with
    | Raise e => handler e [] w
    | Ok tokens =>
        match revoke_all env tokens w with
        | (Ok _, w') => delete_tokens tokens config_section w'
        | (Raise e, w') => handler e tokens w'
        end
    end.

End token_storage.

(** ** [globus_sdk/auth/oauth2_native_app_shortcut.py] *)

Module oauth2_native_app_shortcut.

Definition AUTH_CODE_REDIRECT : string :=
  "https://auth.globus.org/v2/web/auth-code".

Definition NATIVE_AUTH_DEFAULTS (env : collaborators) : pydict string pyval :=
  [("config_filename", PStr (expanduser_native_apps_cfg env));
   ("config_section", PNone);
   ("client_id", PStr "0af96eea-fec8-4d6e-aad2-c87feed8151c");
   ("requested_scopes", DEFAULT_REQUESTED_SCOPES env);
   ("refresh_tokens", PBool false);
   ("prefill_named_grant", PStr (gethostname env));
   ("additional_auth_params", PDict []);
   ("save_tokens", PBool false);
   ("check_tokens_expired", PBool true);
   ("force_login", PBool false);
   ("no_local_server", PBool false);
   ("no_browser", PBool false);
   ("server_hostname", PStr "127.0.0.1");
   ("server_port", PInt 8890);
   ("redirect_uri", PStr "http://localhost:8890/")].

(** [opts[k]] for a key of the defaults table *)
Definition opt (opts : pydict string pyval) (k : string) : pyval :=
  default PNone (dict_get k opts).

(** [v is True], [v is False] *)
Definition is_True (v : pyval) : bool := bool_decide (v = PBool true).
Definition is_False (v : pyval) : bool := bool_decide (v = PBool false).

(** [[k for k in kwargs.keys() if k not in NATIVE_AUTH_DEFAULTS.keys()]] *)
Definition unaccepted (env : collaborators) (kwargs : pydict string pyval)
    : list string :=
  filter (λ k, k ∉ dict_keys (NATIVE_AUTH_DEFAULTS env)) (dict_keys kwargs).

(** The options after the defaults are merged and the redirect target of
    a copy-paste login is chosen (lines 124 to 131). *)
Definition resolve_opts (env : collaborators) (kwargs : pydict string pyval)
    : pydict string pyval :=
  let opts : pydict string pyval :=
    (λ kv, (kv.1, default kv.2 (dict_get kv.1 kwargs)))
      <$> NATIVE_AUTH_DEFAULTS env in
  if is_True (opt opts "no_local_server")
     && bool_decide (opt opts "redirect_uri"
                     = opt (NATIVE_AUTH_DEFAULTS env) "redirect_uri")
  then dict_set "redirect_uri" (PStr AUTH_CODE_REDIRECT) opts
  else opts.

(** The section name as the config parser uses it: only a str can name an
    existing section or be added as one. *)
Definition as_section (v : pyval) : option string :=
  match v with
  | PStr s => Some s
  | _ => None
  end.

Definition newline : string := String (ascii_of_nat 10) "".

Definition _prompt_login (env : collaborators) (url : string)
    (no_browser : pyval) : M unit :=
  if is_False no_browser && negb (is_remote_session env)
  then emit (EvBrowserOpen url)
  else emit (EvSafePrint
               ("Please paste the following URL in a browser: "
                +:+ newline +:+ url)).

(** Lines 146 to 176: the login itself, after a failed or skipped load. *)
Definition auth_flow (env : collaborators) (opts : pydict string pyval)
    (config_section : pyval) : M token_dict :=
  _ ← emit (EvClearTokens config_section (opt opts "client_id"));
  _ ← token_storage.clear_tokens env (as_section config_section)
        (opt opts "client_id");
  _ ← emit (EvNativeAppAuthClient (opt opts "client_id"));
  _ ← emit (EvStartFlow (opt opts "requested_scopes")
              (opt opts "redirect_uri") (opt opts "refresh_tokens")
              (opt opts "prefill_named_grant"));
  _ ← emit (EvGetAuthorizeUrl (opt opts "additional_auth_params"));
  let url := oauth2_get_authorize_url env (opt opts "additional_auth_params") in
  auth_code ←
    (if is_False (opt opts "no_local_server") then
       _ ← emit (EvStartLocalServer (opt opts "server_hostname")
                   (opt opts "server_port"));
       _ ← _prompt_login env url (opt opts "no_browser");
       _ ← emit EvWaitForCode;
       lift (wait_for_code env)
     else
       _ ← _prompt_login env url (opt opts "no_browser");
       _ ← emit (EvSafePrint "Enter the resulting Authorization Code here: ");
       _ ← emit EvInput;
       mret (input env));
  _ ← emit (EvExchangeCode auth_code);
  tokens_by_resource_server ←
    lift (oauth2_exchange_code_for_tokens env auth_code);
  _ ← (if is_True (opt opts "save_tokens") then
         _ ← emit (EvSaveTokens tokens_by_resource_server config_section);
         token_storage.save_tokens tokens_by_resource_server
           (as_section config_section)
       else mret ());
  mret tokens_by_resource_server.

(** Lines 136 to 144: return what the store holds, or fall back to a
    login when the load raised a [ConfigError]. *)
Definition load_or_login (env : collaborators) (opts : pydict string pyval)
    (config_section : pyval) : M token_dict :=
  λ w,
    match token_storage.load_tokens (as_section config_section)
            (opt opts "requested_scopes")
            (is_True (opt opts "check_tokens_expired")) w with
    | Ok tokens => (Ok tokens, w)
    | Raise ce =>
        if is_ConfigError ce
        then (_ ← debug "Loading Tokens Failed, doing auth flow instead.";
              auth_flow env opts config_section) w
        else (Raise ce, w)
    end.

(** [opts["config_section"] or opts["client_id"]] *)
Definition resolve_section (opts : pydict string pyval) : pyval :=
  if py_truthy (opt opts "config_section")
  then opt opts "config_section" else opt opts "client_id".

Definition native_auth (env : collaborators) (kwargs : pydict string pyval)
    : M token_dict :=
  if token_storage.any_str (unaccepted env kwargs) then raise ValueError
  else
    let opts := resolve_opts env kwargs in
    let config_section := resolve_section opts in
    if is_False (opt opts "force_login") then
      _ ← emit (EvLoadTokens config_section (opt opts "requested_scopes")
                  (opt opts "check_tokens_expired"));
      load_or_login env opts config_section
    else auth_flow env opts config_section.

End oauth2_native_app_shortcut.

(** ** [globus_sdk/tokenstorage/file_adapters.py]: SimpleJSONFileAdapter *)

(** What [json.load] returns and [json.dump] accepts. *)
Inductive json :=
  | JNull
  | JBool (b : bool)
  | JNum (z : Z)
  | JStr (s : string)
  | JArr (l : list json)
  | JObj (d : list (string * json)).

Module file_adapters.

(** The text of a file, seen through [json.load]: a JSON value, or text
    that does not parse (an empty file among others). *)
Inductive file_text :=
  | NotJSON
  | Document (val : json).

Record file := mkFile {
  mode : N;            (* permission bits *)
  text : file_text;
}.

(** The file named [self.filename], the umask of the process, and every
    state the file went through, oldest first. *)
Record fs := mkFs {
  umask : N;
  at_filename : option file;
  states : list (option file);
}.

Definition F (A : Type) : Type := fs → result A * fs.

Global Instance F_ret : MRet F := λ A a s, (Ok a, s).
Global Instance F_bind : MBind F := λ A B k m s,
  match m s with
  | (Ok a, s') => k a s'
  | (Raise e, s') => (Raise e, s')
  end.

Definition put_file (f : file) : F unit :=
  λ s, (Ok (), mkFs (umask s) (Some f) (states s ++ [Some f])).

Definition set_umask (m : N) : F N :=
  λ s, (Ok (umask s), mkFs m (at_filename s) (states s)).

(** [open(self.filename, "w")]: an existing file is emptied and keeps its
    mode; a new file is created with mode [0o666 & ~umask]. *)
Definition open_w : F unit :=
  λ s, match at_filename s with
       | Some f => put_file (mkFile (mode f) NotJSON) s
       | None => put_file (mkFile (N.ldiff 438 (* 0o666 *) (umask s)) NotJSON) s
       end.

(** [json.dump(val, f)] into the file just opened *)
Definition json_dump (val : json) : F unit :=
  λ s, match at_filename s with
       | Some f => put_file (mkFile (mode f) (Document val)) s
       | None => (Raise FileNotFoundError, s)
       end.

(** Modelled from the spec: [FileAdapter.user_only_umask] of
    [globus_sdk/tokenstorage/base.py], which is not part of the sources at
    hand.  The store "sets the umask such that only the owner of the
    resulting file can read or write it", denying "rwx to Group and World,
    exec to User": the mask is [0o177] inside the block and the former
    mask afterwards. *)
Definition user_only_umask {A} (body : F A) : F A :=
  λ s, match set_umask 127 (* 0o177 *) s with
       | (Ok old, s1) =>
           let '(r, s2) := body s1 in
           (r, mkFs old (at_filename s2) (states s2))
       | (Raise e, s1) => (Raise e, s1)
       end.

Section adapter.
(** [globus_sdk.version.__version__] *)
Variable __version__ : string.

Definition format_version : string := "1.0".
Definition supported_versions : list string := ["1.0"].

Definition _raw_load (s : fs) : result (pydict string json) :=
  match at_filename s with
  | None => Raise FileNotFoundError
  | Some f =>
      match text f with
      | NotJSON => Raise ValueError        (* json.JSONDecodeError *)
      | Document (JObj val) => Ok val
      | Document _ => Raise ValueError
      end
  end.

(** [format_version not in self.supported_versions] *)
Definition unsupported (format_version : option json) : bool :=
  match format_version with
  | Some (JStr v) => bool_decide (v ∉ supported_versions)
  | _ => true
  end.

(** [isinstance(v, dict)] for [v = read_data.get("by_rs")] *)
Definition is_dict (v : option json) : bool :=
  match v with
  | Some (JObj _) => true
  | _ => false
  end.

Definition _handle_formats (read_data : pydict string json)
    : result (pydict string json) :=
  let format_version := dict_get "format_version" read_data in
  if unsupported format_version then Raise ValueError
  else if negb (is_dict (dict_get "by_rs" read_data)) then Raise ValueError
  else Ok read_data.

Definition _load (s : fs) : result (pydict string json) :=
  match _raw_load s with
  | Raise FileNotFoundError =>
      Ok [("by_rs", JObj []);
          ("format_version", JStr format_version);
          ("globus-sdk.version", JStr __version__)]
  | Raise e => Raise e
  | Ok data => _handle_formats data
  end.

(** [store(token_response)], on [token_response.by_resource_server] *)
Definition store (by_resource_server : pydict string json) : F unit :=
  λ s,
    match _load s with
    | Raise e => (Raise e, s)
    | Ok to_write =>
        match dict_get "by_rs" to_write with
        | Some (JObj by_rs) =>
            let to_write :=
              dict_set "by_rs"
                (JObj (dict_update by_rs by_resource_server)) to_write in
            user_only_umask
              (_ ← open_w; json_dump (JObj to_write)) s
        | Some _ => (Raise AttributeError, s)
        | None => (Raise KeyError, s)
        end
    end.

Definition get_by_resource_server (s : fs) : result json :=
  data ← _load s;
  match dict_get "by_rs" data with
  | Some v => Ok v
  | None => Raise KeyError
  end.

End adapter.

End file_adapters.

(** ** The data model of the specification *)

(** A credential record: the four required fields, and the two that may be
    absent. *)
Record CredentialRecord := mkCredential {
  scope : string;
  access_token : string;
  refresh_token : option string;
  token_type : option string;
  expires_at_seconds : Z;
  resource_server : string;
}.

Definition opt_tokval (v : option string) : tokval :=
  match v with
  | Some s => TStr s
  | None => TNone
  end.

(** The record as the dict the token store works on, keys in the order of
    [TOKEN_KEYS]. *)
Definition record_dict (r : CredentialRecord) : token_set :=
  [("scope", TStr (scope r));
   ("access_token", TStr (access_token r));
   ("refresh_token", opt_tokval (refresh_token r));
   ("token_type", opt_tokval (token_type r));
   ("expires_at_seconds", TInt (expires_at_seconds r));
   ("resource_server", TStr (resource_server r))].

(** A credential set: the records keyed by their resource server. *)
Definition credential_set (recs : list CredentialRecord) : token_dict :=
  (λ r, (TStr (resource_server r), record_dict r)) <$> recs.





(** The union of the scopes of the stored records. *)
Definition stored_scopes (tokens : token_dict) : list string :=
  concat ((λ t, match dict_get "scope" t with
                | Some (TStr s) => Py.split_ws s
                | _ => []
                end) <$> dict_values tokens).

(** What the section holds, before any scope or expiry check: the token
    sets read back by [_deserialize_token_groups], all with their required
    keys. *)
Definition stored (w : world) (config_section : option string)
    (tokens : token_dict) : Prop :=
  (cfg_tokens ← GlobusConfigParser.get_section config_section w;
   token_storage._deserialize_token_groups cfg_tokens) = Ok tokens
  ∧ existsb (λ tok_set, token_storage.any_str (token_storage.missing_keys tok_set))
            (dict_values tokens) = false.

(** The shape of what [_deserialize_token_groups] reads back: a field is
    absent or a non-empty str, the expiry absent or a non-zero int. *)
Definition from_store (v : tokval) : Prop :=
  v = TNone ∨ ∃ s, v = TStr s ∧ s ≠ "".

Definition read_back (t : token_set) : Prop :=
  ∃ v1 v2 v3 v4 v5 v6,
    t = [("scope", v1); ("access_token", v2); ("refresh_token", v3);
         ("token_type", v4); ("expires_at_seconds", v5);
         ("resource_server", v6)]
    ∧ from_store v1 ∧ from_store v2 ∧ from_store v3 ∧ from_store v4
    ∧ (v5 = TNone ∨ ∃ z, v5 = TInt z ∧ z ≠ 0)
    ∧ from_store v6.

(** ** Sample data *)

Definition empty_world : world :=
  mkWorld (ConfigParser.mk ∅ ∅) None (inject_Z 1600000000) [] [].

(** One record with the scopes A and B, alive at the time of [empty_world]. *)
Definition record_AB : CredentialRecord :=
  mkCredential "A B" "token-ab" None (Some "Bearer") 1700000000
               "rs.example.org".

(** The same record, expired. *)
Definition record_old : CredentialRecord :=
  mkCredential "A B" "token-ab" None (Some "Bearer") 1500000000
               "rs.example.org".

Definition world_AB : world :=
  (token_storage.save_tokens (credential_set [record_AB]) (Some "test")
     empty_world).2.

Definition world_old : world :=
  (token_storage.save_tokens (credential_set [record_old]) (Some "test")
     empty_world).2.

(** Two states of the process with the same configuration, in memory and on
    disk, and the same clock. *)
Definition same_config (w w' : world) : Prop :=
  parser w' = parser w ∧ write_file w' = write_file w ∧ clock w' = clock w.

(** A service that answers every call. *)
Definition env_sample : collaborators :=
  {| oauth2_revoke_token := λ _, None;
     oauth2_get_authorize_url := λ _, "https://auth.example.org/authorize";
     is_remote_session := false;
     wait_for_code := Ok "code";
     input := "code";
     oauth2_exchange_code_for_tokens := λ _, Ok (credential_set [record_AB]);
     expanduser_native_apps_cfg := "/home/user/.globus-native-apps.cfg";
     gethostname := "host";
     DEFAULT_REQUESTED_SCOPES := PSeq ["A"; "B"] |}.

(** A service whose revoke call always fails with [AuthAPIError]. *)
Definition env_revoke_fails : collaborators :=
  {| oauth2_revoke_token := λ _, Some AuthAPIError;
     oauth2_get_authorize_url := λ _, "https://auth.example.org/authorize";
     is_remote_session := false;
     wait_for_code := Ok "code";
     input := "code";
     oauth2_exchange_code_for_tokens := λ _, Ok (credential_set [record_AB]);
     expanduser_native_apps_cfg := "/home/user/.globus-native-apps.cfg";
     gethostname := "host";
     DEFAULT_REQUESTED_SCOPES := PSeq ["A"; "B"] |}.

(** The sample record stored under the default client id. *)
Definition world_cached : world :=
  (token_storage.save_tokens (credential_set [record_AB])
     (Some "0af96eea-fec8-4d6e-aad2-c87feed8151c") empty_world).2.

(** [w'] differs from [w] by the events [evs], appended to the trace. *)
Definition emitted (w w' : world) (evs : list event) : Prop :=
  trace w' = trace w ++ evs.

(** The redirect target an event passes to [oauth2_start_flow], if any. *)
Definition start_flow_redirect (ev : event) : option pyval :=
  match ev with
  | EvStartFlow _ redirect_uri _ _ => Some redirect_uri
  | _ => None
  end.

(** A computation all of whose runs relate the state before to the state
    after by [R], whether it returns or raises. *)
Definition preserves (R : relation world) {A} (m : M A) : Prop :=
  ∀ w r w', m w = (r, w') → R w w'.

(** The trace grows by events that pass [redirect] to [oauth2_start_flow],
    if they start a flow at all. *)
Definition starts_flow_with (redirect : pyval) (w w' : world) : Prop :=
  ∃ evs, emitted w w' evs
         ∧ Forall (λ ev, ∀ r, start_flow_redirect ev = Some r → r = redirect)
                  evs.

(** A document with one stored resource server, in a file that group and
    others may read (mode 0o644), and a token response for another one. *)
Definition tokens_a : json :=
  JObj [("access_token", JStr "token-a"); ("expires_at_seconds", JNum 1700000000)].
Definition tokens_b : json :=
  JObj [("access_token", JStr "token-b"); ("expires_at_seconds", JNum 1700000000)].

Definition document_a : json :=
  JObj [("by_rs", JObj [("a.example.org", tokens_a)]);
        ("format_version", JStr "1.0");
        ("globus-sdk.version", JStr "3.0.0")].

Definition document_ab : json :=
  JObj [("by_rs", JObj [("a.example.org", tokens_a);
                         ("b.example.org", tokens_b)]);
        ("format_version", JStr "1.0");
        ("globus-sdk.version", JStr "3.0.0")].

Definition fs_document_a : file_adapters.fs :=
  file_adapters.mkFs 18 (* 0o022 *)
    (Some (file_adapters.mkFile 420 (* 0o644 *) (file_adapters.Document document_a)))
    [].

Definition fs_no_file : file_adapters.fs :=
  file_adapters.mkFs 18 (* 0o022 *) None [].

(** ** What a save writes *)





(** A parser after [set(section, name, value)] went through, the section
    created if it was not there. *)
Definition section_of (p : ConfigParser.t) (section : string)
    : gmap string string :=
  default ∅ (ConfigParser.sections p !! section).

Definition put (section : string) (p : ConfigParser.t) (kv : string * string)
    : ConfigParser.t :=
  ConfigParser.mk (ConfigParser.defaults p)
    (<[section := <[ConfigParser.optionxform kv.1 := kv.2]>
                    (section_of p section)]> (ConfigParser.sections p)).

(** The process after [GlobusConfigParser.set] went through. *)
Definition put_world (section : string) (w : world) (kv : string * string)
    : world :=
  mkWorld (put section (parser w) kv)
          (Some (put section (GlobusConfigParser._get_write_config w) kv))
          (clock w) (trace w) (log w).

(** A section name that [set] files options under, rather than under the
    defaults or not at all. *)
Definition named_section (section : string) : Prop :=
  section ≠ "" ∧ section ≠ ConfigParser.DEFAULTSECT.



(** ** Sample credential sets *)











(** The characters of a string. *)
Abbreviation chars := String.list_ascii_of_string.

(** ** [globus_sdk/config.py]: lookups *)

Module config.

(** How [ConfigParser.get(section, option)] ends: with the value found and
    expanded (or the interpolation error), or with one of the two lookup
    errors that [GlobusConfigParser.get] catches. *)
Inductive lookup :=
  | Found (value : result string)
  | NoSection
  | NoOption.

(** [ConfigParser.get(section, option)] *)
Definition parser_get (p : ConfigParser.t) (section name : string) : lookup :=
  match
    match ConfigParser.sections p !! section with
    | Some sectdict => Some (sectdict ∪ ConfigParser.defaults p)
    | None => if decide (section = ConfigParser.DEFAULTSECT)
              then Some (ConfigParser.defaults p) else None
    end
  with
  | None => NoSection
  | Some d =>
      match d !! ConfigParser.optionxform name with
      | None => NoOption
      | Some value => Found (ConfigParser.before_get d value)
      end
  end.

Section get.
(** [os.environ], and [str.upper] as it is applied to an option name. *)
Variable environ : gmap string string.
Variable upper : string → string.

(** ["GLOBUS_SDK_{}".format(option.upper())] *)
Definition env_option_name (name : string) : string :=
  "GLOBUS_SDK_" +:+ upper name.

(** The inner call [self.get(option, section="general")]: no environment
    variable, no failover, [type_cast=str]. *)
Definition get_general (p : ConfigParser.t) (name : string)
    : result (option string) :=
  match parser_get p GlobusConfigParser._GENERAL_CONF_SECTION name with
  | Found (Ok value) => Ok (Some value)
  | Found (Raise e) => Raise e
  | NoSection | NoOption => Ok None
  end.

(** The section a lookup addresses: a non-empty [environment] overrides
    [section], and [general] stands in for no section at all. *)
Definition lookup_section (section environment : option string) : string :=
  let section :=
    match environment with
    | Some env => if decide (env = "") then section
                  else Some ("environment " +:+ env)
    | None => section
    end in
  default GlobusConfigParser._GENERAL_CONF_SECTION section.

(** [GlobusConfigParser.get]; [name] is the option, the result [None] for
    an option that is not found. *)
Definition get {T} (p : ConfigParser.t) (name : string)
    (section environment : option string)
    (failover_to_general check_env : bool)
    (type_cast : string → result T) : result (option T) :=
  let section := lookup_section section environment in
  value ←
    (match (if check_env then environ !! env_option_name name else None) with
     | Some v => Ok (Some v)
     | None =>
         match parser_get p section name with
         | Found (Ok value) => Ok (Some value)
         | Found (Raise e) => Raise e
         | NoSection | NoOption =>
             if failover_to_general then get_general p name else Ok None
         end
     end);
  match value with
  | Some v => v' ← type_cast v; Ok (Some v')
  | None => Ok None
  end.

(** [_bool_cast] *)
Definition _bool_cast (value : string) : result bool :=
  let value := Py.lower value in
  if bool_decide (value ∈ ["1"; "yes"; "true"; "on"]) then Ok true
  else if bool_decide (value ∈ ["0"; "no"; "false"; "off"]) then Ok false
  else Raise ValueError.

(** [get_ssl_verify(environment)] *)
Definition get_ssl_verify (p : ConfigParser.t) (environment : option string)
    : result bool :=
  value ← get p "ssl_verify" None environment false true _bool_cast;
  Ok (default true value).

End get.

End config.

(** A parser after [remove_option(section, name)] went through on a section
    that exists. *)
Definition unset (section : string) (p : ConfigParser.t) (name : string)
    : ConfigParser.t :=
  ConfigParser.mk (ConfigParser.defaults p)
    (<[section := delete (ConfigParser.optionxform name)
                    (section_of p section)]> (ConfigParser.sections p)).

(** The process after [GlobusConfigParser.remove] went through. *)
Definition unset_world (section : string) (w : world) (name : string) : world :=
  mkWorld (unset section (parser w) name)
          (Some (unset section (GlobusConfigParser._get_write_config w) name))
          (clock w) (trace w) (log w).

(** The section exists in the parser and in the file. *)
Definition has_section_everywhere (w : world) (section : string) : Prop :=
  is_Some (ConfigParser.sections (parser w) !! section)
  ∧ is_Some (ConfigParser.sections (GlobusConfigParser._get_write_config w)
             !! section).

(** ** What a load returns *)

(** A record none of whose fields the store would read back as absent: no
    required field is empty or zero, and an optional field is absent rather
    than empty. *)
Definition complete (r : CredentialRecord) : Prop :=
  scope r ≠ "" ∧ access_token r ≠ ""
  ∧ refresh_token r ≠ Some "" ∧ token_type r ≠ Some ""
  ∧ expires_at_seconds r ≠ 0 ∧ resource_server r ≠ "".

(** ** What a clear does *)

(** The revoke calls for a credential set: one for the access token of each
    record, in the order of the set. *)
Definition revoke_calls (tokens : token_dict) : list event :=
  (λ t, EvRevokeToken (default TNone (dict_get "access_token" t)))
    <$> dict_values tokens.

(** The section holds neither the group index nor, under the option name
    of any of its fields, a record of [tokens]. *)
Definition cleared (p : ConfigParser.t) (section : string)
    (tokens : token_dict) : Prop :=
  section_of p section !! token_storage.CONFIG_TOKEN_GROUPS = None
  ∧ ∀ t rs k,
      t ∈ dict_values tokens →
      dict_get "resource_server" t = Some (TStr rs) →
      k ∈ dict_keys t →
      section_of p section
        !! ConfigParser.optionxform (token_storage._serialize_token rs k)
      = None.

(** ** What a run leaves alone *)

(** [w'] differs from [w] at most in the section [section], of memory and
    of the file as [_get_write_config] reads it, and in what was traced and
    logged: the clock, the defaults and every other section are the same. *)
Definition outside (section : string) (w w' : world) : Prop :=
  clock w' = clock w
  ∧ ∀ p p',
      (p = parser w ∧ p' = parser w')
      ∨ (p = GlobusConfigParser._get_write_config w
         ∧ p' = GlobusConfigParser._get_write_config w') →
      ConfigParser.defaults p' = ConfigParser.defaults p
      ∧ ∀ other, other ≠ section →
          ConfigParser.sections p' !! other = ConfigParser.sections p !! other.

(** ** [globus_sdk/tokenstorage/file_adapters.py]: reading one entry *)

(** [get_token_data(resource_server)]: [None] for a resource server that
    the document does not name; a [by_rs] entry that is no dict would have
    no [get]. *)
Definition get_token_data (__version__ : string) (resource_server : string)
    (s : file_adapters.fs) : result (option json) :=
  by_rs ← file_adapters.get_by_resource_server __version__ s;
  match by_rs with
  | JObj by_rs => Ok (dict_get resource_server by_rs)
  | _ => Raise AttributeError
  end.

(** ** The calls of a login *)

(** The calls a run from [w] to [w'] made, in order. *)
Definition calls (w w' : world) : list event :=
  drop (length (trace w)) (trace w').

(** The trace grows by calls that all satisfy [P]. *)
Definition emits (P : event → Prop) (w w' : world) : Prop :=
  ∃ evs, emitted w w' evs ∧ Forall P evs.

(** The calls that [native_auth] can make under the resolved options
    [opts] for the section [config_section], each with the arguments the
    options give it. *)
Definition licensed (env : collaborators) (opts : pydict string pyval)
    (config_section : pyval) (ev : event) : Prop :=
  let opt := oauth2_native_app_shortcut.opt opts in
  let listens := oauth2_native_app_shortcut.is_False (opt "no_local_server") in
  let url := oauth2_get_authorize_url env (opt "additional_auth_params") in
  match ev with
  | EvLoadTokens s requested check =>
      oauth2_native_app_shortcut.is_False (opt "force_login") = true
      ∧ s = config_section ∧ requested = opt "requested_scopes"
      ∧ check = opt "check_tokens_expired"
  | EvClearTokens s client_id =>
      s = config_section ∧ client_id = opt "client_id"
  | EvNativeAppAuthClient client_id => client_id = opt "client_id"
  | EvRevokeToken _ => True
  | EvStartFlow requested redirect refresh prefill =>
      requested = opt "requested_scopes" ∧ redirect = opt "redirect_uri"
      ∧ refresh = opt "refresh_tokens" ∧ prefill = opt "prefill_named_grant"
  | EvGetAuthorizeUrl params => params = opt "additional_auth_params"
  | EvStartLocalServer hostname port =>
      listens = true
      ∧ hostname = opt "server_hostname" ∧ port = opt "server_port"
  | EvWaitForCode => listens = true
  | EvBrowserOpen u =>
      opt "no_browser" = PBool false ∧ is_remote_session env = false ∧ u = url
  | EvSafePrint message =>
      (message = "Please paste the following URL in a browser: "
                 +:+ oauth2_native_app_shortcut.newline +:+ url
       ∧ (opt "no_browser" ≠ PBool false ∨ is_remote_session env = true))
      ∨ (message = "Enter the resulting Authorization Code here: "
         ∧ listens = false)
  | EvInput => listens = false
  | EvExchangeCode auth_code =>
      if listens then wait_for_code env = Ok auth_code
      else auth_code = input env
  | EvSaveTokens tokens s =>
      opt "save_tokens" = PBool true ∧ s = config_section
      ∧ ∃ auth_code, oauth2_exchange_code_for_tokens env auth_code = Ok tokens
  end.

(** Every option that memory or the file holds in [w'] was there in [w]
    with the same value: the run wrote nothing, it removed at most. *)
Definition only_removes (w w' : world) : Prop :=
  clock w' = clock w
  ∧ ∀ p p',
      (p = parser w ∧ p' = parser w')
      ∨ (p = GlobusConfigParser._get_write_config w
         ∧ p' = GlobusConfigParser._get_write_config w') →
      ConfigParser.defaults p' ⊆ ConfigParser.defaults p
      ∧ ∀ s, section_of p' s ⊆ section_of p s.

(** * Properties *)

Import token_storage.

(** ** Python dictionaries *)

Section dict_lemmas.
Context {K V : Type} `{EqDecision K}.
Implicit Types (d : pydict K V).

Lemma dict_set_values_Forall (P : V → Prop) k v d :
  P v → Forall P (dict_values d) → Forall P (dict_values (dict_set k v d)).
Proof.
  intros Hv. unfold dict_values. induction d as [|[k' v'] d IH]; simpl.
  - intros _. by constructor.
  - intros Hall. apply Forall_cons in Hall as [Hv' Hd].
    destruct (decide (k = k')); simpl; constructor; auto.
Qed.

Lemma dict_get_set_eq k v d : dict_get k (dict_set k v d) = Some v.
Proof.
  induction d as [|[k' v'] d IH]; simpl.
  - by rewrite decide_True.
  - destruct (decide (k = k')) as [->|Hne]; simpl.
    + by rewrite decide_True.
    + by rewrite decide_False.
Qed.

Lemma dict_get_set_ne k k' v d :
  k ≠ k' → dict_get k' (dict_set k v d) = dict_get k' d.
Proof.
  intros Hne. induction d as [|[k0 v0] d IH]; simpl.
  - by rewrite decide_False.
  - destruct (decide (k = k0)) as [->|Hne0]; simpl.
    + by rewrite !decide_False.
    + by rewrite IH.
Qed.

Lemma dict_get_update_ne k d new :
  k ∉ dict_keys new → dict_get k (dict_update d new) = dict_get k d.
Proof.
  unfold dict_update, dict_keys. revert d.
  induction new as [|[k' v'] new IH]; intros d Hk; simpl; [done|].
  rewrite fmap_cons, not_elem_of_cons in Hk. destruct Hk as [Hne Hk].
  rewrite IH by done. by apply dict_get_set_ne.
Qed.

End dict_lemmas.

(** ** What the store reads back *)

Lemma from_store_of_config o :
  from_store (if tok_truthy (of_config o) then of_config o else TNone).
Proof.
  destruct o as [s|]; simpl; [|by left].
  case_bool_decide; simpl; [by left|right; eauto].
Qed.

Lemma deserialize_group_read_back cfg g rs t :
  deserialize_group cfg g = Ok (rs, t) →
  read_back t ∧ dict_get "resource_server" t = Some rs.
Proof.
  unfold deserialize_group. simpl.
  destruct (cfg !! _deserialize_token g "expires_at_seconds") as [e|];
    simpl; [|done].
  destruct (Py.int_of_str e) as [z|] eqn:Hz; simpl; [|done].
  intros [= <- <-]. split.
  - do 6 eexists. split; [reflexivity|].
    repeat split; try apply from_store_of_config.
    destruct (Z.eqb_spec z 0); simpl; [by left|right; eauto].
  - simpl. by destruct (tok_truthy _).
Qed.

Lemma deserialize_loop_read_back cfg groups acc tokens :
  deserialize_loop cfg groups acc = Ok tokens →
  Forall read_back (dict_values acc) → Forall read_back (dict_values tokens).
Proof.
  revert acc. induction groups as [|g groups IH]; simpl; intros acc.
  - by intros [= <-].
  - destruct (deserialize_group cfg g) as [[rs t]|] eqn:Hg; simpl; [|done].
    intros Hloop Hacc. apply (IH _ Hloop).
    apply dict_set_values_Forall; [|done].
    by apply deserialize_group_read_back in Hg as [? _].
Qed.

Lemma stored_read_back w section tokens :
  stored w section tokens → Forall read_back (dict_values tokens).
Proof.
  intros [Hload _].
  destruct (GlobusConfigParser.get_section section w) as [[cfg|]|];
    simpl in Hload; try done.
  unfold _deserialize_token_groups in Hload.
  destruct (cfg !! CONFIG_TOKEN_GROUPS); [|done].
  eapply deserialize_loop_read_back; [done|constructor].
Qed.

Lemma missing_keys_none t mk :
  any_str (missing_keys t) = false → mk ∈ REQUIRED_KEYS →
  tok_truthy (default TNone (dict_get mk t)) = true.
Proof.
  intros Hany Hmk. destruct (tok_truthy _) eqn:Htr; [done|].
  assert (mk ∈ missing_keys t) as Hin.
  { unfold missing_keys. by apply list_elem_of_filter. }
  assert (any_str (missing_keys t) = true) as Habs; [|congruence].
  unfold any_str. apply existsb_exists. exists mk. split.
  - by apply list_elem_of_In.
  - apply negb_true_iff, bool_decide_eq_false. intros ->.
    apply list_elem_of_In in Hmk. simpl in Hmk. intuition discriminate.
Qed.

(** A token set that was read back and has its required keys. *)
Lemma read_back_required t :
  read_back t → any_str (missing_keys t) = false →
  ∃ s z, dict_get "scope" t = Some (TStr s)
         ∧ dict_get "expires_at_seconds" t = Some (TInt z).
Proof.
  intros (v1&v2&v3&v4&v5&v6&->&H1&_&_&_&H5&_) Hmiss.
  pose proof (missing_keys_none _ "scope" Hmiss) as Hs.
  pose proof (missing_keys_none _ "expires_at_seconds" Hmiss) as He.
  unfold REQUIRED_KEYS in *.
  destruct H1 as [->|(s&->&_)];
    [discriminate Hs; apply list_elem_of_In; simpl; tauto|].
  destruct H5 as [->|(z&->&_)];
    [discriminate He; apply list_elem_of_In; simpl; tauto|].
  by exists s, z.
Qed.

Lemma stored_required w section tokens t :
  stored w section tokens → t ∈ dict_values tokens →
  ∃ s z, dict_get "scope" t = Some (TStr s)
         ∧ dict_get "expires_at_seconds" t = Some (TInt z).
Proof.
  intros Hst Ht. pose proof (stored_read_back _ _ _ Hst) as Hrb.
  destruct Hst as [_ Hreq].
  apply read_back_required.
  - by eapply Forall_forall in Hrb.
  - destruct (any_str (missing_keys t)) eqn:Hm; [|done].
    rewrite <- Hreq. symmetry. apply existsb_exists. exists t.
    split; [by apply list_elem_of_In|done].
Qed.

Lemma rmapM_cons {A B} (f : A → result B) a l :
  rmapM f (a :: l) = (b ← f a; bs ← rmapM f l; Ok (b :: bs)).
Proof. reflexivity. Qed.

(** The scope lists of stored tokens, and their expiry tests. *)
Lemma stored_scope_lists w section tokens :
  stored w section tokens →
  ∃ scope_lists, rmapM scope_words (dict_values tokens) = Ok scope_lists
                 ∧ concat scope_lists = stored_scopes tokens.
Proof.
  intros Hst. unfold stored_scopes.
  assert (∀ t, t ∈ dict_values tokens → ∃ s, dict_get "scope" t = Some (TStr s))
    as Hall.
  { intros t Ht. destruct (stored_required _ _ _ _ Hst Ht) as (s&_&?&_). eauto. }
  induction (dict_values tokens) as [|t ts IH].
  - by exists [].
  - destruct (Hall t) as [s Hs]; [apply list_elem_of_here|].
    destruct IH as (ls&Hls&Hc); [intros; by apply Hall, list_elem_of_further|].
    exists (Py.split_ws s :: ls). rewrite rmapM_cons, Hls.
    unfold scope_words at 1. rewrite Hs. simpl. rewrite Hs. split; [done|]. f_equal. exact Hc.
Qed.

Lemma stored_expired w section tokens now :
  stored w section tokens →
  ∃ expired, rmapM (is_expired now) (dict_values tokens) = Ok expired
     ∧ (existsb id expired = true ↔
        ∃ t z, t ∈ dict_values tokens
               ∧ dict_get "expires_at_seconds" t = Some (TInt z)
               ∧ (inject_Z z <= now)%Q).
Proof.
  intros Hst.
  assert (∀ t, t ∈ dict_values tokens →
               ∃ z, dict_get "expires_at_seconds" t = Some (TInt z)) as Hall.
  { intros t Ht. destruct (stored_required _ _ _ _ Hst Ht) as (_&z&_&?). eauto. }
  induction (dict_values tokens) as [|t ts IH].
  - exists []. split; [done|]. split; [done|]. intros (t&z&Ht&_).
    by apply elem_of_nil in Ht.
  - destruct (Hall t) as [z Hz]; [apply list_elem_of_here|].
    destruct IH as (ex&Hex&Hiff); [intros; by apply Hall, list_elem_of_further|].
    exists (Qle_bool (inject_Z z) now :: ex).
    rewrite rmapM_cons, Hex. unfold is_expired at 1. rewrite Hz. simpl.
    split; [done|].
    rewrite orb_true_iff, Hiff. unfold id. rewrite Qle_bool_iff. split.
    + intros [Hle|(t'&z'&Ht'&Hz'&Hle)].
      * exists t, z. split; [apply list_elem_of_here|done].
      * exists t', z'. split; [by apply list_elem_of_further|done].
    + intros (t'&z'&Ht'&Hz'&Hle). apply elem_of_cons in Ht' as [->|Ht'].
      * left. congruence.
      * right. eauto.
Qed.

Lemma load_tokens_stored w section tokens requested check_expired :
  stored w section tokens →
  load_tokens section requested check_expired w =
    (_ ← (if py_truthy requested then
           scope_lists ← rmapM scope_words (dict_values tokens);
           requested ← py_elements requested;
           match scopes_difference (concat scope_lists) requested with
           | [] => Ok ()
           | _ :: _ => Raise RequestedScopesMismatch
           end
         else Ok ());
    _ ← (if check_expired then
           expired ← rmapM (is_expired (clock w)) (dict_values tokens);
           if existsb id expired then Raise LoadedTokensExpired else Ok ()
         else Ok ());
    Ok tokens).
Proof.
  intros [Hload Hreq]. unfold load_tokens. rewrite Hload. simpl. by rewrite Hreq.
Qed.

Lemma scopes_difference_nil loaded requested :
  scopes_difference loaded requested = [] ↔ loaded ⊆ requested.
Proof.
  unfold scopes_difference. split.
  - intros Hnil s Hs. destruct (decide (s ∈ requested)) as [|Hn]; [done|].
    assert (s ∈ filter (λ s, s ∉ requested) (remove_dups loaded)) as Hin.
    { apply list_elem_of_filter. split; [done|]. by apply elem_of_remove_dups. }
    rewrite Hnil in Hin. by apply elem_of_nil in Hin.
  - intros Hsub. apply elem_of_nil_inv. intros s [Hs Hin]%list_elem_of_filter.
    apply Hs, Hsub. by apply elem_of_remove_dups.
Qed.

(** C3.  For a section that holds a credential set and a non-empty
    collection of requested scopes, [load_tokens] raises
    [RequestedScopesMismatch] exactly when the union of the stored scopes is
    not a subset of the requested scopes. *)
Theorem load_tokens_scope_gate w config_section tokens requested check_expired :
  stored w config_section tokens →
  requested ≠ [] →
  load_tokens config_section (PSeq requested) check_expired w
    = Raise RequestedScopesMismatch
  ↔ ¬ stored_scopes tokens ⊆ requested.
Proof.
  intros Hst Hne. rewrite (load_tokens_stored _ _ _ _ _ Hst).
  destruct (stored_scope_lists _ _ _ Hst) as (ls&Hls&Hc).
  destruct (stored_expired _ _ _ (clock w) Hst) as (ex&Hex&_).
  rewrite Hls, Hex. simpl. rewrite bool_decide_eq_false_2 by done. simpl.
  rewrite Hc, <- scopes_difference_nil.
  destruct (scopes_difference _ _); simpl.
  - split; [|done]. destruct check_expired; simpl; [|done].
    by destruct (existsb id ex).
  - done.
Qed.

(** C4.  When a stored record expires at or before the current time (and
    the scope check lets the load through), [load_tokens] with expiry
    checking raises [LoadedTokensExpired], and the same load without expiry
    checking returns the stored records. *)
Theorem load_tokens_expiry_gate w config_section tokens requested t z :
  stored w config_section tokens →
  requested = [] ∨ stored_scopes tokens ⊆ requested →
  t ∈ dict_values tokens →
  dict_get "expires_at_seconds" t = Some (TInt z) →
  (inject_Z z <= clock w)%Q →
  load_tokens config_section (PSeq requested) true w = Raise LoadedTokensExpired
  ∧ load_tokens config_section (PSeq requested) false w = Ok tokens.
Proof.
  intros Hst Hscope Ht Hz Hle. rewrite !(load_tokens_stored _ _ _ _ _ Hst).
  destruct (stored_scope_lists _ _ _ Hst) as (ls&Hls&Hc).
  destruct (stored_expired _ _ _ (clock w) Hst) as (ex&Hex&Hiff).
  assert (existsb id ex = true) as Hexp by (apply Hiff; eauto).
  rewrite Hls, Hex. simpl. rewrite Hexp.
  destruct Hscope as [->|Hsub]; simpl; [done|].
  apply scopes_difference_nil in Hsub. rewrite Hc, Hsub.
  by destruct (bool_decide _).
Qed.

Lemma stored_world_AB :
  stored world_AB (Some "test") (credential_set [record_AB]).
Proof. split; vm_compute; reflexivity. Qed.

Lemma stored_world_old :
  stored world_old (Some "test") (credential_set [record_old]).
Proof. split; vm_compute; reflexivity. Qed.

Lemma load_tokens_scope_gate_witness :
  load_tokens (Some "test") (PSeq ["A"]) true world_AB
    = Raise RequestedScopesMismatch
  ∧ load_tokens (Some "test") (PSeq ["A"; "B"; "C"]) true world_AB
    ≠ Raise RequestedScopesMismatch.
Proof.
  split.
  - apply (load_tokens_scope_gate world_AB (Some "test")
             (credential_set [record_AB]) ["A"] true).
    + exact stored_world_AB.
    + discriminate.
    + intros Hsub. specialize (Hsub "B"). vm_compute in Hsub.
      assert ("B" ∈ ["A"]) as Hin.
      { apply Hsub. apply list_elem_of_further, list_elem_of_here. }
      apply list_elem_of_In in Hin. simpl in Hin. intuition discriminate.
  - intros Hraise.
    apply (load_tokens_scope_gate world_AB (Some "test")
             (credential_set [record_AB]) ["A"; "B"; "C"] true) in Hraise.
    + apply Hraise. intros s Hs. vm_compute in Hs.
      apply list_elem_of_In in Hs. apply list_elem_of_In.
      simpl in *. tauto.
    + exact stored_world_AB.
    + discriminate.
Defined.

(** The two loads of the specification's example, evaluated. *)
Example scope_gate_A_B_C :
  load_tokens (Some "test") (PSeq ["A"; "B"; "C"]) true world_AB
    = Ok (credential_set [record_AB]).
Proof. vm_compute. reflexivity. Qed.

Lemma load_tokens_expiry_gate_witness :
  load_tokens (Some "test") (PSeq []) true world_old = Raise LoadedTokensExpired
  ∧ load_tokens (Some "test") (PSeq []) false world_old
    = Ok (credential_set [record_old]).
Proof.
  apply (load_tokens_expiry_gate world_old (Some "test")
           (credential_set [record_old]) [] (record_dict record_old)
           1500000000).
  - exact stored_world_old.
  - by left.
  - apply list_elem_of_here.
  - reflexivity.
  - vm_compute. discriminate.
Defined.

(** ** Clearing and revocation *)

Lemma same_config_refl w : same_config w w.
Proof. done. Qed.

Lemma same_config_trans w1 w2 w3 :
  same_config w1 w2 → same_config w2 w3 → same_config w1 w3.
Proof. intros (?&?&?) (?&?&?). repeat split; congruence. Qed.

Lemma M_bind_unfold {A B} (m : M A) (k : A → M B) w :
  (m ≫= k) w = match m w with
                | (Ok a, w') => k a w'
                | (Raise e, w') => (Raise e, w')
                end.
Proof. reflexivity. Qed.

Lemma load_tokens_Ok_stored section requested check w tokens :
  load_tokens section requested check w = Ok tokens → stored w section tokens.
Proof.
  unfold load_tokens, stored.
  destruct (_ ← GlobusConfigParser.get_section section w; _) as [l|]; simpl; [|done].
  destruct (existsb _ (dict_values l)) eqn:Hreq; simpl; [done|].
  destruct (if py_truthy requested then _ else _); simpl; [|done].
  destruct (if check then _ else _); simpl; [|done].
  intros [= <-]. done.
Qed.

Lemma forM__cons {A} (f : A → M unit) a l w :
  forM_ (a :: l) f w = match f a w with
                       | (Ok _, w') => forM_ l f w'
                       | (Raise e, w') => (Raise e, w')
                       end.
Proof. reflexivity. Qed.








(** ** The login shortcut *)

Import oauth2_native_app_shortcut.

(** C5, at the input where the code departs from it.  The keyword
    arguments hold one option, named by the empty string, which is not in
    the defaults table; the list of unaccepted names is not empty, but
    [any] finds no truthy name in it: no error is raised, the stored tokens
    are loaded and returned. *)
Lemma native_auth_empty_option_name :
  let out := native_auth env_sample [("", PBool true)] world_cached in
  unaccepted env_sample [("", PBool true)] = [""]
  ∧ out.1 = Ok (credential_set [record_AB])
  ∧ trace out.2 =
      [EvLoadTokens (PStr "0af96eea-fec8-4d6e-aad2-c87feed8151c")
         (PSeq ["A"; "B"]) (PBool true)].
Proof. vm_compute. repeat split; reflexivity. Qed.

Lemma any_str_true l s : s ∈ l → s ≠ "" → any_str l = true.
Proof.
  intros Hin Hne. unfold any_str. apply existsb_exists. exists s.
  split; [by apply list_elem_of_In|].
  by apply negb_true_iff, bool_decide_eq_false.
Qed.

(** An unknown option with a non-empty name is rejected before anything
    else happens. *)
Lemma native_auth_unknown_option env kwargs k w :
  k ∈ dict_keys kwargs → k ∉ dict_keys (NATIVE_AUTH_DEFAULTS env) → k ≠ "" →
  native_auth env kwargs w = (Raise ValueError, w).
Proof.
  intros Hk Hun Hne. unfold native_auth.
  rewrite (any_str_true _ k); [done| |done].
  unfold unaccepted. by apply list_elem_of_filter.
Qed.

Lemma load_tokens_same_config w w' section requested check :
  same_config w w' →
  load_tokens section requested check w' = load_tokens section requested check w.
Proof.
  intros (Hp&_&Hc). unfold load_tokens, GlobusConfigParser.get_section.
  by rewrite Hp, Hc.
Qed.

(** C6.  When the option names are accepted, [force_login] is [False] and
    loading the stored credential set of the resolved section succeeds,
    [native_auth] returns exactly the loaded set; the configuration is left
    as it was and the only call it makes is the load itself: no clear, no
    authorization request, no listener, no code exchange, no save. *)
Theorem native_auth_returns_stored env kwargs w tokens :
  let opts := resolve_opts env kwargs in
  let config_section := resolve_section opts in
  any_str (unaccepted env kwargs) = false →
  opt opts "force_login" = PBool false →
  load_tokens (as_section config_section) (opt opts "requested_scopes")
    (is_True (opt opts "check_tokens_expired"))
    w = Ok tokens →
  ∃ w', native_auth env kwargs w = (Ok tokens, w')
        ∧ same_config w w'
        ∧ trace w' = trace w ++ [EvLoadTokens config_section
                                   (opt opts "requested_scopes")
                                   (opt opts "check_tokens_expired")].
Proof.
  intros opts config_section Hacc Hforce Hload. unfold native_auth.
  rewrite Hacc. fold opts. fold config_section. rewrite Hforce.
  unfold is_False. rewrite bool_decide_eq_true_2 by done.
  unfold mbind, M_bind, emit, load_or_login. cbn.
  eexists. split.
  - rewrite (load_tokens_same_config w); [by rewrite Hload|done].
  - done.
Qed.

Lemma native_auth_returns_stored_witness :
  ∃ w', native_auth env_sample [] world_cached
          = (Ok (credential_set [record_AB]), w')
        ∧ same_config world_cached w'
        ∧ trace w' =
            trace world_cached ++
            [EvLoadTokens (PStr "0af96eea-fec8-4d6e-aad2-c87feed8151c")
               (PSeq ["A"; "B"]) (PBool true)].
Proof.
  apply (native_auth_returns_stored env_sample [] world_cached
           (credential_set [record_AB])).
  - reflexivity.
  - reflexivity.
  - vm_compute. reflexivity.
Defined.

(** *** What a run adds to the trace *)

Section preserves.
Context (R : relation world) `{!PreOrder R}.

Lemma preserves_ret {A} (a : A) : preserves R (mret a).
Proof. intros w r w' [= <- <-]. reflexivity. Qed.

Lemma preserves_raise {A} e : preserves R (@raise A e).
Proof. intros w r w' [= <- <-]. reflexivity. Qed.

Lemma preserves_lift {A} (x : result A) : preserves R (lift x).
Proof. intros w r w' [= <- <-]. reflexivity. Qed.

Lemma preserves_bind {A B} (m : M A) (k : A → M B) :
  preserves R m → (∀ a, preserves R (k a)) → preserves R (m ≫= k).
Proof.
  intros Hm Hk w r w'. unfold mbind, M_bind.
  destruct (m w) as [[a|e] w1] eqn:Hmw.
  - intros Hkw. transitivity w1; [by eapply Hm|by eapply Hk].
  - intros [= <- <-]. by eapply Hm.
Qed.

Lemma preserves_forM_ {A} (l : list A) (f : A → M unit) :
  (∀ a, preserves R (f a)) → preserves R (forM_ l f).
Proof.
  intros Hf. induction l as [|a l IH]; simpl.
  - apply preserves_ret.
  - apply preserves_bind; [apply Hf|done].
Qed.

Lemma preserves_if {A} (b : bool) (m1 m2 : M A) :
  preserves R m1 → preserves R m2 → preserves R (if b then m1 else m2).
Proof. by destruct b. Qed.

End preserves.

Global Instance same_config_preorder : PreOrder same_config.
Proof.
  split.
  - intros w. apply same_config_refl.
  - intros w1 w2 w3. apply same_config_trans.
Qed.

Global Instance starts_flow_with_preorder redirect :
  PreOrder (starts_flow_with redirect).
Proof.
  split.
  - intros w. exists []. split; [|constructor]. unfold emitted. by rewrite app_nil_r.
  - intros w1 w2 w3 (e1&H1&F1) (e2&H2&F2). exists (e1 ++ e2). split.
    + unfold emitted in *. by rewrite H2, H1, app_assoc.
    + by apply Forall_app.
Qed.

(** Computations that leave the trace alone. *)
Lemma same_trace_starts_flow redirect w w' :
  trace w' = trace w → starts_flow_with redirect w w'.
Proof.
  intros Htr. exists []. split; [|constructor]. unfold emitted.
  by rewrite app_nil_r.
Qed.

Lemma preserves_emit redirect ev :
  (∀ r, start_flow_redirect ev = Some r → r = redirect) →
  preserves (starts_flow_with redirect) (emit ev).
Proof.
  intros Hev w r w' [= <- <-]. exists [ev]. split; [done|].
  by constructor.
Qed.

Lemma preserves_debug redirect msg :
  preserves (starts_flow_with redirect) (debug msg).
Proof. intros w r w' [= <- <-]. by apply same_trace_starts_flow. Qed.

Lemma preserves_config_set redirect name value section :
  preserves (starts_flow_with redirect)
            (GlobusConfigParser.set name value section).
Proof.
  intros w r w'. destruct section as [section|]; simpl.
  - unfold mbind, M_bind, lift, GlobusConfigParser._save,
      GlobusConfigParser.set_parser.
    repeat (match goal with
            | |- context [match ?x with Ok _ => _ | Raise _ => _ end] =>
                destruct x; simpl
            end);
      intros [= <- <-]; by apply same_trace_starts_flow.
  - intros [= <- <-]. by apply same_trace_starts_flow.
Qed.

Lemma preserves_config_remove redirect name section :
  preserves (starts_flow_with redirect)
            (GlobusConfigParser.remove name section).
Proof.
  intros w r w'.
  unfold GlobusConfigParser.remove, mbind, M_bind, lift,
    GlobusConfigParser._save, GlobusConfigParser.set_parser.
  repeat (match goal with
          | |- context [match ?x with Ok _ => _ | Raise _ => _ end] =>
              destruct x as [[]|]; simpl
          end);
    intros [= <- <-]; by apply same_trace_starts_flow.
Qed.

Lemma preserves_save_tokens redirect tokens section :
  preserves (starts_flow_with redirect) (save_tokens tokens section).
Proof.
  unfold save_tokens. apply preserves_bind; [apply _|apply preserves_lift; apply _|].
  intros cfg. apply preserves_forM_; [apply _|].
  intros kv. apply preserves_config_set.
Qed.

Lemma preserves_revoke_all redirect env tokens :
  preserves (starts_flow_with redirect) (revoke_all env tokens).
Proof.
  unfold revoke_all. apply preserves_forM_; [apply _|]. intros t.
  unfold revoke_one.
  apply preserves_bind; [apply _|apply preserves_debug|]. intros _.
  apply preserves_bind; [apply _|apply preserves_lift; apply _|]. intros tok.
  apply preserves_bind; [apply _|by apply preserves_emit|]. intros _.
  destruct (oauth2_revoke_token env tok).
  - apply preserves_raise; apply _.
  - apply preserves_ret; apply _.
Qed.

Lemma preserves_delete_tokens redirect tokens section :
  preserves (starts_flow_with redirect) (delete_tokens tokens section).
Proof.
  unfold delete_tokens. destruct tokens; [apply preserves_ret; apply _|].
  apply preserves_bind; [apply _|apply preserves_lift; apply _|]. intros cfg.
  apply preserves_bind; [apply _| |].
  - apply preserves_forM_; [apply _|]. intros name.
    apply preserves_bind; [apply _|apply preserves_config_remove|].
    intros _. apply preserves_ret; apply _.
  - intros _. apply preserves_bind; [apply _|apply preserves_config_remove|].
    intros _. apply preserves_ret; apply _.
Qed.

Lemma preserves_clear_tokens redirect env section client_id :
  preserves (starts_flow_with redirect) (clear_tokens env section client_id).
Proof.
  intros w r w'. unfold clear_tokens.
  set (w1 := (emit (EvNativeAppAuthClient client_id) w).2).
  assert (starts_flow_with redirect w w1) as H1.
  { by apply (preserves_emit redirect (EvNativeAppAuthClient client_id) ltac:(done) w (Ok ())). }
  assert (∀ e tokens w2 r w',
    (if decide (e = LoadedTokensExpired)
     then λ w, match load_tokens section (PSeq []) false w with
               | Ok tokens => delete_tokens tokens section w
               | Raise e' => (Raise e', w)
               end
     else if is_ConfigError e
          then _ ← debug "ConfigError"; delete_tokens tokens section
          else raise e) w2 = (r, w') → starts_flow_with redirect w2 w') as Hhandler.
  { intros e tokens w2 r2 w2'. destruct (decide _).
    - destruct (load_tokens _ _ _ _).
      + apply preserves_delete_tokens.
      + intros [= <- <-]. reflexivity.
    - destruct (is_ConfigError e).
      + apply preserves_bind; [apply _|apply preserves_debug|].
        intros _. apply preserves_delete_tokens.
      + apply preserves_raise; apply _. }
  destruct (load_tokens section (PSeq []) true w1) as [tokens|e].
  - destruct (revoke_all env tokens w1) as [[[]|e] w2] eqn:Hrev.
    + intros Hdel. transitivity w1; [done|]. transitivity w2.
      * by eapply preserves_revoke_all.
      * by eapply preserves_delete_tokens.
    + intros Hh. transitivity w1; [done|]. transitivity w2.
      * by eapply preserves_revoke_all.
      * by eapply Hhandler.
  - intros Hh. transitivity w1; [done|]. by eapply Hhandler.
Qed.

Lemma preserves_prompt_login redirect env url no_browser :
  preserves (starts_flow_with redirect) (_prompt_login env url no_browser).
Proof. unfold _prompt_login. destruct (_ && _); by apply preserves_emit. Qed.

Lemma preserves_auth_flow env opts section :
  preserves (starts_flow_with (opt opts "redirect_uri"))
            (auth_flow env opts section).
Proof.
  unfold auth_flow.
  repeat first
    [ apply preserves_clear_tokens
    | apply preserves_save_tokens
    | apply preserves_prompt_login
    | apply preserves_emit; simpl; congruence
    | apply preserves_ret; apply _
    | apply preserves_lift; apply _
    | apply preserves_if
    | apply preserves_bind; [apply _| |intros ?] ].
Qed.

Lemma preserves_native_auth env kwargs :
  preserves (starts_flow_with (opt (resolve_opts env kwargs) "redirect_uri"))
            (native_auth env kwargs).
Proof.
  unfold native_auth. apply preserves_if; [apply preserves_raise; apply _|].
  apply preserves_if; [|apply preserves_auth_flow].
  apply preserves_bind; [apply _|by apply preserves_emit|]. intros _.
  intros w r w'. unfold load_or_login.
  destruct (load_tokens _ _ _ w) as [tokens|e].
  - intros [= <- <-]. reflexivity.
  - destruct (is_ConfigError e).
    + apply preserves_bind; [apply _|apply preserves_debug|]. intros _.
      apply preserves_auth_flow.
    + intros [= <- <-]. reflexivity.
Qed.

(** C10.  When [no_local_server] is [True] and the redirect target is the
    default local-listener URI, the resolved options carry the hosted
    auth-code page instead; a redirect target other than the default is
    left as the caller gave it; and whenever [native_auth] starts a flow,
    [oauth2_start_flow] receives the resolved redirect target. *)
Theorem native_auth_redirect_uri env kwargs :
  let opts := resolve_opts env kwargs in
  let given k := default (opt (NATIVE_AUTH_DEFAULTS env) k) (dict_get k kwargs) in
  (given "no_local_server" = PBool true →
   given "redirect_uri" = PStr "http://localhost:8890/" →
   opt opts "redirect_uri" = PStr "https://auth.globus.org/v2/web/auth-code")
  ∧ (given "redirect_uri" ≠ PStr "http://localhost:8890/" →
     opt opts "redirect_uri" = given "redirect_uri")
  ∧ (∀ w r w' ev redirect_uri,
       native_auth env kwargs w = (r, w') →
       ev ∈ drop (length (trace w)) (trace w') →
       start_flow_redirect ev = Some redirect_uri →
       redirect_uri = opt opts "redirect_uri").
Proof.
  intros opts given. split; [|split].
  - intros Hnls Hred. unfold opts, resolve_opts.
    change (opt (_ <$> NATIVE_AUTH_DEFAULTS env) "no_local_server")
      with (given "no_local_server").
    change (opt (_ <$> NATIVE_AUTH_DEFAULTS env) "redirect_uri")
      with (given "redirect_uri").
    rewrite Hnls, Hred. reflexivity.
  - intros Hred. unfold opts, resolve_opts.
    change (opt (_ <$> NATIVE_AUTH_DEFAULTS env) "no_local_server")
      with (given "no_local_server").
    change (opt (_ <$> NATIVE_AUTH_DEFAULTS env) "redirect_uri")
      with (given "redirect_uri").
    rewrite (bool_decide_eq_false_2 _ Hred), andb_false_r. reflexivity.
  - intros w r w' ev redirect_uri Hrun Hev Hstart.
    destruct (preserves_native_auth env kwargs w r w' Hrun) as (evs&Hevs&Hall).
    unfold emitted in Hevs. rewrite Hevs, drop_app_length in Hev.
    eapply Forall_forall in Hall; [|exact Hev]. by apply Hall.
Qed.

Lemma native_auth_redirect_uri_witness :
  opt (resolve_opts env_sample [("no_local_server", PBool true)])
      "redirect_uri"
    = PStr "https://auth.globus.org/v2/web/auth-code"
  ∧ opt (resolve_opts env_sample
           [("no_local_server", PBool true);
            ("redirect_uri", PStr "http://example.com/login")])
        "redirect_uri"
    = PStr "http://example.com/login".
Proof.
  split.
  - apply (native_auth_redirect_uri env_sample
             [("no_local_server", PBool true)]); reflexivity.
  - apply (native_auth_redirect_uri env_sample
             [("no_local_server", PBool true);
              ("redirect_uri", PStr "http://example.com/login")]).
    discriminate.
Defined.

(** ** The JSON file adapter *)

Import file_adapters.

(** C7.  Loading when the file is missing returns a fresh envelope: an
    empty by-resource-server mapping and the current format version, "1.0".
    Loading an existing document whose format version is not a supported
    one, or whose by-resource-server entry is absent or not a mapping,
    raises [ValueError]. *)
Theorem simple_json_load version (s : fs) :
  (at_filename s = None →
   _load version s = Ok [("by_rs", JObj []);
                         ("format_version", JStr format_version);
                         ("globus-sdk.version", JStr version)]
   ∧ format_version = "1.0")
  ∧ (∀ f data,
       at_filename s = Some f → text f = Document (JObj data) →
       ¬ (∃ v, dict_get "format_version" data = Some (JStr v)
               ∧ v ∈ supported_versions)
       ∨ ¬ (∃ by_rs, dict_get "by_rs" data = Some (JObj by_rs)) →
       _load version s = Raise ValueError).
Proof.
  split.
  - intros Hnone. unfold _load, _raw_load. by rewrite Hnone.
  - intros f data Hf Htext Hbad. unfold _load, _raw_load.
    rewrite Hf, Htext. unfold _handle_formats.
    destruct (unsupported _) eqn:Hun; [done|].
    destruct (is_dict _) eqn:Hdict; [|done]. exfalso.
    destruct Hbad as [Hbad|Hbad]; apply Hbad.
    + unfold unsupported in Hun.
      destruct (dict_get "format_version" data) as [[| | |v| |]|]; try done.
      exists v. split; [done|].
      apply bool_decide_eq_false in Hun. by apply dec_stable.
    + unfold is_dict in Hdict.
      destruct (dict_get "by_rs" data) as [[| | | | |d]|]; try done. by exists d.
Qed.

Lemma simple_json_load_witness :
  _load "3.0.0" fs_no_file
    = Ok [("by_rs", JObj []); ("format_version", JStr "1.0");
          ("globus-sdk.version", JStr "3.0.0")]
  ∧ _load "3.0.0"
      (mkFs 18 (Some (mkFile 420 (Document (JObj [("format_version", JStr "2.0");
                                                   ("by_rs", JObj [])])))) [])
    = Raise ValueError.
Proof.
  split.
  - apply (simple_json_load "3.0.0" fs_no_file). reflexivity.
  - eapply (simple_json_load "3.0.0"); [reflexivity|reflexivity|].
    left. intros (v&Hv&Hin). injection Hv as <-.
    apply list_elem_of_In in Hin. simpl in Hin. intuition discriminate.
Defined.

(** C8, as the code has it.  For an existing, valid document, [store]
    re-loads it and writes it back with the by-resource-server mapping
    updated by the incoming entries: an entry of a resource server that the
    response does not name is unchanged, and so is every other key of the
    document.  The file is rewritten in place, not atomically: it is first
    emptied, then filled; the umask of the process is restored. *)
Theorem store_updates_in_place version by_resource_server (s : fs) f data by_rs :
  at_filename s = Some f →
  text f = Document (JObj data) →
  dict_get "format_version" data = Some (JStr "1.0") →
  dict_get "by_rs" data = Some (JObj by_rs) →
  let merged := dict_update by_rs by_resource_server in
  let written := dict_set "by_rs" (JObj merged) data in
  ∃ s',
    store version by_resource_server s = (Ok (), s')
    ∧ at_filename s' = Some (mkFile (mode f) (Document (JObj written)))
    ∧ dict_get "by_rs" written = Some (JObj merged)
    ∧ (∀ rs, rs ∉ dict_keys by_resource_server →
             dict_get rs merged = dict_get rs by_rs)
    ∧ (∀ k, k ≠ "by_rs" → dict_get k written = dict_get k data)
    ∧ umask s' = umask s
    ∧ states s' = states s ++ [Some (mkFile (mode f) NotJSON);
                               Some (mkFile (mode f) (Document (JObj written)))].
Proof.
  intros Hf Htext Hver Hby merged written.
  unfold store, _load, _raw_load, _handle_formats. rewrite Hf, Htext, Hver, Hby.
  simpl. rewrite Hby. 
  unfold user_only_umask, set_umask, mbind, F_bind, open_w, json_dump, put_file.
  simpl. rewrite Hf. simpl. eexists. split; [reflexivity|]. simpl.
  split; [done|]. split; [apply dict_get_set_eq|].
  split; [intros rs Hrs; by apply dict_get_update_ne|].
  split; [intros k Hk; by apply dict_get_set_ne|].
  split; [done|]. by rewrite <- app_assoc.
Qed.

Lemma store_updates_in_place_witness :
  ∃ s', store "3.0.0" [("b.example.org", tokens_b)] fs_document_a = (Ok (), s')
        ∧ at_filename s' = Some (mkFile 420 (Document document_ab)).
Proof.
  destruct (store_updates_in_place "3.0.0" [("b.example.org", tokens_b)]
              fs_document_a (mkFile 420 (Document document_a))
              [("by_rs", JObj [("a.example.org", tokens_a)]);
               ("format_version", JStr "1.0");
               ("globus-sdk.version", JStr "3.0.0")]
              [("a.example.org", tokens_a)]
              eq_refl eq_refl eq_refl eq_refl) as (s'&Hstore&Hfile&_).
  exists s'. split; [exact Hstore|exact Hfile].
Defined.

(** A file that [store] creates is readable and writable by its owner
    only (mode 0o600). *)
Lemma store_creates_owner_only version by_resource_server (s : fs) :
  at_filename s = None →
  ∃ s' doc, store version by_resource_server s = (Ok (), s')
            ∧ at_filename s' = Some (mkFile 384 (* 0o600 *) (Document doc)).
Proof.
  intros Hnone. unfold store, _load, _raw_load. rewrite Hnone. simpl.
  unfold user_only_umask, set_umask, mbind, F_bind, open_w, json_dump, put_file.
  simpl. rewrite Hnone. simpl. eauto.
Qed.

(** C8 fails as stated: the write is not atomic and does not restrict the
    permissions of an existing file.  Storing a response for b.example.org
    over a document that holds a.example.org, in a file of mode 0o644,
    succeeds; between the two states of the document the file is empty, and
    it is still of mode 0o644 at the end. *)
Lemma store_not_atomic :
  let out := store "3.0.0" [("b.example.org", tokens_b)] fs_document_a in
  out.1 = Ok ()
  ∧ states out.2 = [Some (mkFile 420 NotJSON);
                    Some (mkFile 420 (Document document_ab))]
  ∧ at_filename out.2 = Some (mkFile 420 (Document document_ab)).
Proof. vm_compute. repeat split; reflexivity. Qed.

(** ** Strings, integers, sanitized names *)

Lemma chars_app a b : chars (a +:+ b) = chars a ++ chars b.
Proof. induction a as [|c a IH]; simpl; [done|]. by rewrite IH. Qed.

Lemma chars_inj a b : chars a = chars b → a = b.
Proof.
  intros H. rewrite <- (String.string_of_list_ascii_of_string a),
    <- (String.string_of_list_ascii_of_string b). by rewrite H.
Qed.


Lemma string_app_nil_r s : s +:+ "" = s.
Proof. apply chars_inj. by rewrite chars_app, app_nil_r. Qed.



Lemma not_suffix_of_keys k1 k2 :
  k1 ∈ TOKEN_KEYS → k2 ∈ TOKEN_KEYS → k1 ≠ k2 →
  ¬ chars ("_" +:+ k1) `suffix_of` chars ("_" +:+ k2).
Proof.
  intros H1 H2 Hne.
  apply list_elem_of_In in H1, H2. simpl in H1, H2.
  destruct H1 as [<-|[<-|[<-|[<-|[<-|[<-|[]]]]]]];
  destruct H2 as [<-|[<-|[<-|[<-|[<-|[<-|[]]]]]]]; try done;
  apply (bool_decide_eq_false_1 _); vm_compute; reflexivity.
Qed.

Lemma serialize_token_inj a b k1 k2 :
  k1 ∈ TOKEN_KEYS → k2 ∈ TOKEN_KEYS →
  a +:+ "_" +:+ k1 = b +:+ "_" +:+ k2 → a = b ∧ k1 = k2.
Proof.
  intros H1 H2 Heq. apply (f_equal chars) in Heq.
  rewrite (chars_app a), (chars_app b) in Heq.
  destruct (decide (k1 = k2)) as [->|Hne].
  - apply app_inj_2 in Heq as [Ha _]; [|done]. split; [by apply chars_inj|done].
  - exfalso.
    assert (chars ("_" +:+ k1) `suffix_of` chars a ++ chars ("_" +:+ k1))
      as S1 by (by eexists).
    assert (chars ("_" +:+ k2) `suffix_of` chars a ++ chars ("_" +:+ k1))
      as S2 by (rewrite Heq; by eexists).
    destruct (suffix_weak_total _ _ _ S1 S2) as [S|S].
    + by eapply not_suffix_of_keys in S.
    + by eapply not_suffix_of_keys in S.
Qed.

Lemma serialize_token_not_index a k :
  k ∈ TOKEN_KEYS → a +:+ "_" +:+ k ≠ CONFIG_TOKEN_GROUPS.
Proof.
  intros Hk Heq. apply (f_equal chars) in Heq. rewrite chars_app in Heq.
  assert (chars ("_" +:+ k) `suffix_of` chars CONFIG_TOKEN_GROUPS) as S.
  { rewrite <- Heq. by eexists. }
  revert S. apply list_elem_of_In in Hk. simpl in Hk.
  destruct Hk as [<-|[<-|[<-|[<-|[<-|[<-|[]]]]]]];
    apply (bool_decide_eq_false_1 _); vm_compute; reflexivity.
Qed.

(** *** Sanitized names *)


Lemma lower_app a b : Py.lower (a +:+ b) = Py.lower a +:+ Py.lower b.
Proof.
  unfold Py.lower. induction a as [|x a IH]; simpl; [done|]. by rewrite IH.
Qed.



(** *** The group index *)




(** *** Integers as text *)









(** *** Values without the interpolation character *)









(** ** Dictionaries and sections built by successive writes *)

Section dict_update.
Context {K V : Type} `{EqDecision K}.
Implicit Types (d : pydict K V).

Lemma dict_update_cons d kv l :
  dict_update d (kv :: l) = dict_update (dict_set kv.1 kv.2 d) l.
Proof. reflexivity. Qed.


Lemma dict_set_keys k v d k' :
  k' ∈ dict_keys (dict_set k v d) ↔ k' = k ∨ k' ∈ dict_keys d.
Proof.
  unfold dict_keys. induction d as [|[k0 v0] d IH]; simpl.
  - rewrite list_elem_of_singleton, elem_of_nil. tauto.
  - destruct (decide (k = k0)) as [->|Hne]; simpl;
      rewrite !elem_of_cons; [tauto|]. rewrite IH. tauto.
Qed.

Lemma dict_set_entries k v d kv :
  kv ∈ dict_set k v d → kv = (k, v) ∨ kv ∈ d.
Proof.
  induction d as [|[k0 v0] d IH]; simpl.
  - rewrite list_elem_of_singleton. tauto.
  - destruct (decide (k = k0)) as [->|Hne]; rewrite !elem_of_cons;
      [tauto|]. intros [?|?]; [tauto|]. destruct IH; tauto.
Qed.





End dict_update.

(** *** Options written one after the other *)



(** *** One option written *)










(** ** What a save writes, and what a load reads back *)




Lemma elem_of_concat {A} (x : A) (ls : list (list A)) :
  x ∈ concat ls ↔ ∃ l, x ∈ l ∧ l ∈ ls.
Proof.
  induction ls as [|l ls IH]; simpl.
  - split; [by intros ?%elem_of_nil|]. intros (l&_&Hl). by apply elem_of_nil in Hl.
  - rewrite elem_of_app, IH. split.
    + intros [Hx|(l'&Hx&Hl')].
      * exists l. split; [done|apply list_elem_of_here].
      * exists l'. split; [done|by apply list_elem_of_further].
    + intros (l'&Hx&Hl'). apply elem_of_cons in Hl' as [->|Hl']; eauto.
Qed.




(** *** Storable records *)










(** *** The section after a save *)


(** *** Reading a group back *)










(** *** The loop of [_deserialize_token_groups] *)










(** * The configuration parser: lookups, writes and removals *)

Lemma parser_get_section p section sectdict name :
  ConfigParser.sections p !! section = Some sectdict →
  config.parser_get p section name =
    match (sectdict ∪ ConfigParser.defaults p) !! Py.lower name with
    | None => config.NoOption
    | Some value =>
        config.Found (ConfigParser.before_get
                        (sectdict ∪ ConfigParser.defaults p) value)
    end.
Proof. intros Hs. unfold config.parser_get. by rewrite Hs. Qed.











Lemma unset_lookup section p name :
  ConfigParser.sections (unset section p name) !! section
    = Some (delete (ConfigParser.optionxform name) (section_of p section)).
Proof. simpl. by rewrite lookup_insert_eq. Qed.

Lemma remove_option_named p section name :
  named_section section →
  is_Some (ConfigParser.sections p !! section) →
  ConfigParser.remove_option p section name
    = Ok (bool_decide (is_Some (section_of p section !! Py.lower name)),
          unset section p name).
Proof.
  intros [Hne Hnd] [sd Hs]. unfold ConfigParser.remove_option, unset,
    section_of. rewrite decide_False by tauto. by rewrite Hs.
Qed.

Lemma remove_option_missing p section name :
  named_section section →
  ConfigParser.sections p !! section = None →
  ConfigParser.remove_option p section name = Raise NoSectionError.
Proof.
  intros [Hne Hnd] Hs. unfold ConfigParser.remove_option.
  rewrite decide_False by tauto. by rewrite Hs.
Qed.

Lemma config_remove_ok section w name :
  named_section section →
  has_section_everywhere w section →
  GlobusConfigParser.remove name (Some section) w
    = (Ok (bool_decide
             (is_Some (section_of (GlobusConfigParser._get_write_config w)
                                  section !! Py.lower name))),
       unset_world section w name).
Proof.
  intros Hsec [Hp Hc]. unfold GlobusConfigParser.remove. simpl.
  unfold mbind, M_bind, lift.
  rewrite (remove_option_named _ _ _ Hsec Hc). simpl.
  by rewrite (remove_option_named _ _ _ Hsec Hp).
Qed.

Lemma has_section_unset_world section w name :
  has_section_everywhere (unset_world section w name) section.
Proof. split; simpl; rewrite lookup_insert_eq; by eexists. Qed.

(** X3 ([GlobusConfigParser.remove], [GlobusConfigParser.get]): in a named
    section that both the file and memory have, [remove] answers whether the
    file held the option, whatever memory held; afterwards, where the
    parser's defaults do not hold the option either, a lookup of it under
    any spelling of its case returns [None], and a second [remove] answers
    [False] and changes nothing more. *)
Theorem config_remove_then_get (environ : gmap string string)
    (upper : string → string) section w name name' :
  named_section section →
  has_section_everywhere w section →
  Py.lower name' = Py.lower name →
  ConfigParser.defaults (parser w) !! Py.lower name = None →
  ∃ w',
    GlobusConfigParser.remove name (Some section) w
      = (Ok (bool_decide
               (is_Some (section_of (GlobusConfigParser._get_write_config w)
                                    section !! Py.lower name))), w')
    ∧ config.get environ upper (parser w') name' (Some section) None
        false false Ok = Ok None
    ∧ GlobusConfigParser.remove name' (Some section) w' = (Ok false, w').
Proof.
  intros Hsec Hhas Hname Hdef. eexists. split; [by apply config_remove_ok|].
  split.
  - unfold config.get, config.lookup_section. simpl.
    rewrite (parser_get_section _ _ _ _ (unset_lookup section _ name)).
    unfold ConfigParser.optionxform. rewrite Hname. simpl.
    assert ((delete (Py.lower name) (section_of (parser w) section)
               ∪ ConfigParser.defaults (parser w)) !! Py.lower name = None)
      as ->; [|done].
    apply lookup_union_None. split; [apply lookup_delete_eq|done].
  - rewrite config_remove_ok by (done || apply has_section_unset_world).
    f_equal.
    + f_equal. apply bool_decide_eq_false_2. intros [v Hv].
      unfold section_of in Hv. simpl in Hv.
      rewrite lookup_insert_eq in Hv. simpl in Hv.
      unfold ConfigParser.optionxform in Hv. rewrite Hname in Hv.
      by rewrite lookup_delete_eq in Hv.
    + unfold unset_world, unset, section_of. simpl.
      rewrite !lookup_insert_eq. simpl. rewrite !insert_insert_eq.
      unfold ConfigParser.optionxform. rewrite Hname.
      by rewrite !delete_delete_eq.
Qed.

Lemma config_remove_then_get_witness :
  ∃ w',
    GlobusConfigParser.remove "Access_Token" (Some "tokens")
        (put_world "tokens" empty_world ("access_token", "abc"))
      = (Ok true, w')
    ∧ config.get ∅ id (parser w') "ACCESS_TOKEN" (Some "tokens") None
        false false Ok = Ok None
    ∧ GlobusConfigParser.remove "ACCESS_TOKEN" (Some "tokens") w'
      = (Ok false, w').
Proof.
  apply (config_remove_then_get ∅ id "tokens"
           (put_world "tokens" empty_world ("access_token", "abc"))
           "Access_Token" "ACCESS_TOKEN").
  - by split.
  - split; simpl; rewrite lookup_insert_eq; by eexists.
  - reflexivity.
  - reflexivity.
Defined.

Lemma parser_get_unfound p section name :
  (section_of p section ∪ ConfigParser.defaults p) !! Py.lower name = None →
  config.parser_get p section name = config.NoSection
  ∨ config.parser_get p section name = config.NoOption.
Proof.
  unfold config.parser_get, section_of, ConfigParser.optionxform.
  intros Hnone. destruct (ConfigParser.sections p !! section) as [sd|].
  - simpl in Hnone. rewrite Hnone. by right.
  - simpl in Hnone. apply lookup_union_None in Hnone as [_ Hnone].
    destruct (decide _); [|by left]. rewrite Hnone. by right.
Qed.

(** X4 ([GlobusConfigParser.get]): when no environment variable decides and
    neither the addressed section nor the parser's defaults hold the option,
    [get] returns [None] rather than raising, also where the section does
    not exist; with [failover_to_general] it returns what a plain lookup in
    [general] returns, cast by the caller's [type_cast]. *)
Theorem config_get_unfound {T} (environ : gmap string string)
    (upper : string → string) (type_cast : string → result T)
    p name section environment check_env :
  (check_env = true → environ !! config.env_option_name upper name = None) →
  (section_of p (config.lookup_section section environment)
     ∪ ConfigParser.defaults p) !! Py.lower name = None →
  config.get environ upper p name section environment false check_env
    type_cast = Ok None
  ∧ config.get environ upper p name section environment true check_env
      type_cast
    = config.get environ upper p name None None false false type_cast.
Proof.
  intros Henv Hnone. unfold config.get.
  replace (if check_env then _ else _) with (@None string)
    by (destruct check_env; [by rewrite Henv|done]).
  unfold config.get_general. change (config.lookup_section None None)
    with GlobusConfigParser._GENERAL_CONF_SECTION.
  destruct (parser_get_unfound _ _ _ Hnone) as [-> | ->];
    (split; [done|]);
    by destruct (config.parser_get p _ name) as [[v|e]| |].
Qed.

Lemma config_get_unfound_witness :
  config.get ∅ id (put "general" (ConfigParser.mk ∅ ∅) ("timeout", "30"))
    "timeout" None (Some "sandbox") false true Py.int_of_str = Ok None
  ∧ config.get ∅ id (put "general" (ConfigParser.mk ∅ ∅) ("timeout", "30"))
      "timeout" None (Some "sandbox") true true Py.int_of_str
    = config.get ∅ id (put "general" (ConfigParser.mk ∅ ∅) ("timeout", "30"))
        "timeout" None None false false Py.int_of_str.
Proof.
  apply (config_get_unfound ∅ id Py.int_of_str
           (put "general" (ConfigParser.mk ∅ ∅) ("timeout", "30"))
           "timeout" None (Some "sandbox") true); [done|reflexivity].
Defined.

Lemma parser_get_other_section p section other sectdict name :
  section ≠ other →
  config.parser_get
    (ConfigParser.mk (ConfigParser.defaults p)
       (<[other := sectdict]> (ConfigParser.sections p))) section name
  = config.parser_get p section name.
Proof.
  intros Hne. unfold config.parser_get. simpl.
  by rewrite lookup_insert_ne.
Qed.

(** X5 ([get_ssl_verify]): the [general] section has no say in certificate
    verification of a named environment: whatever [general] is replaced by,
    the answer is the same, and it is [True] when the environment variable
    is unset and neither the environment's section nor the parser's defaults
    hold [ssl_verify]. *)
Theorem get_ssl_verify_ignores_general (environ : gmap string string)
    (upper : string → string) p env general :
  env ≠ "" →
  config.get_ssl_verify environ upper
    (ConfigParser.mk (ConfigParser.defaults p)
       (<[GlobusConfigParser._GENERAL_CONF_SECTION := general]>
          (ConfigParser.sections p))) (Some env)
  = config.get_ssl_verify environ upper p (Some env)
  ∧ (environ !! config.env_option_name upper "ssl_verify" = None →
     (section_of p ("environment " +:+ env) ∪ ConfigParser.defaults p)
       !! "ssl_verify" = None →
     config.get_ssl_verify environ upper p (Some env) = Ok true).
Proof.
  intros Henv. unfold config.get_ssl_verify, config.get,
    config.lookup_section. rewrite decide_False by done. simpl.
  split.
  - by rewrite parser_get_other_section.
  - intros -> Hnone.
    by destruct (parser_get_unfound p _ "ssl_verify" Hnone) as [-> | ->].
Qed.

Lemma get_ssl_verify_ignores_general_witness :
  config.get_ssl_verify ∅ id
    (ConfigParser.mk ∅ (<["general" := {["ssl_verify" := "no"]}]> ∅))
    (Some "sandbox") = Ok true.
Proof.
  assert ("sandbox" ≠ "") as Hne by done.
  destruct (get_ssl_verify_ignores_general ∅ id (ConfigParser.mk ∅ ∅)
              "sandbox" {["ssl_verify" := "no"]} Hne) as [Heq Htrue].
  etrans; [exact Heq|]. apply Htrue; reflexivity.
Defined.
(** * The token store: option names, loads, saves and clears *)

Lemma lower_token_key k : k ∈ TOKEN_KEYS → Py.lower k = k.
Proof.
  intros Hk. apply list_elem_of_In in Hk. simpl in Hk.
  destruct Hk as [<-|[<-|[<-|[<-|[<-|[<-|[]]]]]]]; reflexivity.
Qed.

Lemma lower_serialize_token_key rs k :
  k ∈ TOKEN_KEYS →
  ConfigParser.optionxform (_serialize_token rs k)
    = Py.lower (Py.replace_dot rs) +:+ "_" +:+ k.
Proof.
  intros Hk. unfold ConfigParser.optionxform, _serialize_token.
  rewrite !lower_app, (lower_token_key k Hk). reflexivity.
Qed.

(** X6 ([_serialize_token]): the option names of the store, as the parser
    files them.  Two fields share an option exactly when they are the same
    field of resource servers whose names agree up to case and up to "."
    against "_"; and no field is ever filed under [token_groups], the
    option of the group index. *)
Theorem option_names_collide_iff rs1 rs2 k1 k2 :
  k1 ∈ TOKEN_KEYS → k2 ∈ TOKEN_KEYS →
  (ConfigParser.optionxform (_serialize_token rs1 k1)
     = ConfigParser.optionxform (_serialize_token rs2 k2)
   ↔ Py.lower (Py.replace_dot rs1) = Py.lower (Py.replace_dot rs2)
     ∧ k1 = k2)
  ∧ ConfigParser.optionxform (_serialize_token rs1 k1) ≠ CONFIG_TOKEN_GROUPS.
Proof.
  intros Hk1 Hk2. rewrite !lower_serialize_token_key by done. split.
  - split.
    + by apply serialize_token_inj.
    + by intros [-> ->].
  - by apply serialize_token_not_index.
Qed.

Lemma option_names_collide_iff_witness :
  ConfigParser.optionxform (_serialize_token "Auth.Globus.org" "scope")
    = ConfigParser.optionxform (_serialize_token "auth_globus.ORG" "scope").
Proof.
  apply (option_names_collide_iff "Auth.Globus.org" "auth_globus.ORG"
           "scope" "scope");
    [apply list_elem_of_In; simpl; tauto ..|].
  split; reflexivity.
Defined.

Lemma load_tokens_first_stage section requested check w :
  (∃ tokens, stored w section tokens)
  ∨ load_tokens section requested check w = Raise ConfigError.
Proof.
  unfold load_tokens, stored.
  destruct (cfg_tokens ← GlobusConfigParser.get_section section w;
            _deserialize_token_groups cfg_tokens) as [tokens|e];
    [|by right].
  cbn [mbind result_bind].
  destruct (existsb _ (dict_values tokens)) eqn:Hmiss; [by right|].
  left. by exists tokens.
Qed.

(** X7 ([load_tokens]): whatever the section holds, a load that raises
    raises [ConfigError] or one of its two subclasses: a malformed store
    never surfaces as a [KeyError], [ValueError] or [AttributeError].  The
    one other error is the caller's own: a [TypeError] for requested scopes
    that are a non-zero number or [True], and so no collection. *)
Theorem load_tokens_raises_ConfigError section requested check_expired w e :
  load_tokens section requested check_expired w = Raise e →
  is_ConfigError e = true
  ∨ (e = TypeError
     ∧ (requested = PBool true ∨ ∃ z, requested = PInt z ∧ z ≠ 0)).
Proof.
  destruct (load_tokens_first_stage section requested check_expired w)
    as [[tokens Hst]|Hraise]; [|rewrite Hraise; intros [= <-]; by left].
  rewrite (load_tokens_stored _ _ _ _ _ Hst).
  destruct (stored_scope_lists _ _ _ Hst) as (scope_lists&Hsl&_).
  destruct (stored_expired _ _ _ (clock w) Hst) as (expired&Hex&_).
  rewrite Hsl, Hex. cbn [mbind result_bind].
  assert (∀ r : result (),
            (_ ← r;
             _ ← (if check_expired
                  then if existsb id expired then Raise LoadedTokensExpired
                       else Ok ()
                  else Ok ());
             Ok tokens) = Raise e →
            is_ConfigError e = true ∨ r = Raise e) as Hrest.
  { intros [[]|e']; cbn [mbind result_bind]; [|intros [= <-]; by right].
    destruct check_expired; [|done].
    destruct (existsb id expired); [|done]. intros [= <-]. by left. }
  intros Hload. apply Hrest in Hload as [?|Hload]; [by left|].
  destruct (py_truthy requested) eqn:Htruthy; [|done].
  destruct requested as [|v|v|s|l|d]; cbn [py_elements mbind result_bind]
    in Hload; try discriminate Hload; try discriminate Htruthy;
    try (destruct (scopes_difference _ _); [done|];
         injection Hload as <-; by left).
  - injection Hload as <-. right. split; [done|]. left.
    by destruct v.
  - injection Hload as <-. right. split; [done|]. right. exists v.
    split; [done|]. simpl in Htruthy. apply negb_true_iff in Htruthy. lia.
Qed.

Lemma load_tokens_raises_ConfigError_witness :
  is_ConfigError ConfigError = true
  ∨ (ConfigError = TypeError
     ∧ (PSeq ["A"] = PBool true ∨ ∃ z, PSeq ["A"] = PInt z ∧ z ≠ 0)).
Proof.
  apply (load_tokens_raises_ConfigError (Some "test") (PSeq ["A"]) true
           (put_world "test" empty_world ("token_groups", "rs_"))).
  reflexivity.
Defined.

Lemma dict_set_NoDup {K V} `{EqDecision K} (k : K) (v : V) d :
  NoDup (dict_keys d) → NoDup (dict_keys (dict_set k v d)).
Proof.
  unfold dict_keys. induction d as [|[k' v'] d IH]; simpl; intros Hnd.
  - apply NoDup_singleton.
  - apply NoDup_cons in Hnd as [Hk' Hnd].
    destruct (decide (k = k')) as [->|Hne]; simpl.
    + by apply NoDup_cons.
    + apply NoDup_cons. split; [|by apply IH].
      intros Hin. apply (dict_set_keys k v d k') in Hin as [->|Hin]; done.
Qed.

Lemma deserialize_loop_keyed cfg groups acc tokens :
  deserialize_loop cfg groups acc = Ok tokens →
  NoDup (dict_keys acc) →
  (∀ k t, (k, t) ∈ acc → dict_get "resource_server" t = Some k) →
  NoDup (dict_keys tokens)
  ∧ ∀ k t, (k, t) ∈ tokens → dict_get "resource_server" t = Some k.
Proof.
  revert acc. induction groups as [|g groups IH]; intros acc; simpl.
  - intros [= <-]. done.
  - destruct (deserialize_group cfg g) as [[rs t]|e] eqn:Hg; [|done].
    cbn [mbind result_bind]. intros Hloop Hnd Hacc.
    apply (IH _ Hloop); [by apply dict_set_NoDup|].
    intros k t' Hin. apply dict_set_entries in Hin as [[= -> ->]|Hin].
    + by apply deserialize_group_read_back in Hg as [_ Hrs].
    + by apply Hacc.
Qed.

Lemma from_store_opt v :
  from_store v → ∃ o, v = opt_tokval o ∧ o ≠ Some "".
Proof.
  intros [->|(s&->&Hs)].
  - by exists None.
  - exists (Some s). split; [done|]. by intros [= ->].
Qed.

(** A token set that was read back with its required keys is the dict of a
    complete record. *)
Lemma read_back_record t :
  read_back t → any_str (missing_keys t) = false →
  ∃ r, t = record_dict r ∧ complete r.
Proof.
  intros (v1&v2&v3&v4&v5&v6&->&H1&H2&H3&H4&H5&H6) Hmiss.
  assert (∀ mk, mk ∈ REQUIRED_KEYS → _) as Hreq
    by (intros mk; apply (missing_keys_none _ mk Hmiss)).
  pose proof (Hreq "scope") as Hs.
  pose proof (Hreq "access_token") as Ha.
  pose proof (Hreq "expires_at_seconds") as He.
  pose proof (Hreq "resource_server") as Hr.
  unfold REQUIRED_KEYS in *.
  destruct H1 as [->|(s&->&Hs')];
    [discriminate Hs; apply list_elem_of_In; simpl; tauto|].
  destruct H2 as [->|(a&->&Ha')];
    [discriminate Ha; apply list_elem_of_In; simpl; tauto|].
  destruct H5 as [->|(z&->&Hz)];
    [discriminate He; apply list_elem_of_In; simpl; tauto|].
  destruct H6 as [->|(rs&->&Hrs)];
    [discriminate Hr; apply list_elem_of_In; simpl; tauto|].
  apply from_store_opt in H3 as (o3&->&Ho3).
  apply from_store_opt in H4 as (o4&->&Ho4).
  exists (mkCredential s a o3 o4 z rs). by repeat split.
Qed.

Lemma keyed_credential_set (tokens : token_dict) :
  (∀ k t, (k, t) ∈ tokens →
     ∃ r, t = record_dict r ∧ complete r ∧ k = TStr (resource_server r)) →
  ∃ recs, tokens = credential_set recs ∧ Forall complete recs.
Proof.
  induction tokens as [|[k t] tokens IH]; intros Hall.
  - by exists [].
  - destruct (Hall k t) as (r&->&Hr&->); [apply list_elem_of_here|].
    destruct IH as (recs&->&Hrecs).
    { intros k' t' Hin. apply Hall. by apply list_elem_of_further. }
    exists (r :: recs). split; [done|by constructor].
Qed.

Lemma credential_set_keys recs :
  dict_keys (credential_set recs) = TStr <$> (resource_server <$> recs).
Proof.
  unfold dict_keys, credential_set. rewrite <- !list_fmap_compose.
  by apply list_fmap_ext.
Qed.

Lemma stored_credential_set w section tokens :
  stored w section tokens →
  ∃ recs, tokens = credential_set recs
          ∧ Forall complete recs
          ∧ NoDup (resource_server <$> recs).
Proof.
  intros Hst. pose proof (stored_read_back _ _ _ Hst) as Hrb.
  destruct Hst as [Hload Hmiss].
  assert (NoDup (dict_keys tokens)
          ∧ ∀ k t, (k, t) ∈ tokens → dict_get "resource_server" t = Some k)
    as [Hnd Hkey].
  { destruct (GlobusConfigParser.get_section section w) as [[cfg|]|];
      try done. cbn [mbind result_bind] in Hload.
    unfold _deserialize_token_groups in Hload.
    destruct (cfg !! CONFIG_TOKEN_GROUPS); [|done].
    apply (deserialize_loop_keyed _ _ _ _ Hload); [constructor|].
    intros k t Hin. by apply elem_of_nil in Hin. }
  destruct (keyed_credential_set tokens) as (recs&->&Hrecs).
  { intros k t Hin.
    assert (t ∈ dict_values tokens) as Ht.
    { apply list_elem_of_fmap. by exists (k, t). }
    rewrite Forall_forall in Hrb.
    destruct (read_back_record t) as (r&->&Hr); [by apply Hrb| |].
    - destruct (any_str (missing_keys t)) eqn:Hm; [|done].
      assert (existsb (λ tok_set, any_str (missing_keys tok_set))
                (dict_values tokens) = true) as Habs; [|congruence].
      apply existsb_exists. exists t. split; [by apply list_elem_of_In|done].
    - exists r. split; [done|]. split; [done|].
      apply Hkey in Hin. simpl in Hin. congruence. }
  exists recs. split; [done|]. split; [done|].
  rewrite credential_set_keys in Hnd. by apply NoDup_fmap_1 in Hnd.
Qed.

Lemma split_on_nonempty c s : Py.split_on c s ≠ [].
Proof.
  destruct s as [|a s]; simpl; [done|].
  destruct (Ascii.eqb a c); [done|]. by destruct (Py.split_on c s).
Qed.

Lemma dict_set_nonempty {K V} `{EqDecision K} (k : K) (v : V) d :
  dict_set k v d ≠ [].
Proof. destruct d as [|[k' v'] d]; simpl; [done|]. by destruct (decide _). Qed.

Lemma deserialize_loop_nonempty cfg groups acc tokens :
  deserialize_loop cfg groups acc = Ok tokens →
  groups ≠ [] ∨ acc ≠ [] → tokens ≠ [].
Proof.
  revert acc. induction groups as [|g groups IH]; intros acc; simpl.
  - intros [= <-] [?|?]; done.
  - destruct (deserialize_group cfg g) as [[rs t]|e]; [|done].
    cbn [mbind result_bind]. intros Hloop _. apply (IH _ Hloop).
    right. apply dict_set_nonempty.
Qed.

(** A section that holds a credential set holds at least one record. *)
Lemma stored_nonempty w section tokens :
  stored w section tokens → tokens ≠ [].
Proof.
  intros [Hload _].
  destruct (GlobusConfigParser.get_section section w) as [[cfg|]|];
    try done. cbn [mbind result_bind] in Hload.
  unfold _deserialize_token_groups in Hload.
  destruct (cfg !! CONFIG_TOKEN_GROUPS); [|done].
  apply (deserialize_loop_nonempty _ _ _ _ Hload). left.
  apply split_on_nonempty.
Qed.


Lemma load_tokens_Ok_checks section requested check w tokens :
  load_tokens section (PSeq requested) check w = Ok tokens →
  (requested ≠ [] → stored_scopes tokens ⊆ requested)
  ∧ (check = true →
     ∀ t z, t ∈ dict_values tokens →
            dict_get "expires_at_seconds" t = Some (TInt z) →
            (clock w < inject_Z z)%Q).
Proof.
  intros Hload. pose proof (load_tokens_Ok_stored _ _ _ _ _ Hload) as Hst.
  rewrite (load_tokens_stored _ _ _ _ _ Hst) in Hload.
  destruct (stored_scope_lists _ _ _ Hst) as (scope_lists&Hsl&Hconcat).
  destruct (stored_expired _ _ _ (clock w) Hst) as (expired&Hex&Hiff).
  rewrite Hsl, Hex in Hload. cbn [mbind result_bind py_elements] in Hload.
  split.
  - intros Hne.
    replace (py_truthy (PSeq requested)) with true in Hload
      by (simpl; by rewrite bool_decide_eq_false_2).
    rewrite Hconcat in Hload.
    destruct (scopes_difference _ _) eqn:Hdiff; [|done].
    by apply scopes_difference_nil.
  - intros -> t z Ht Hz. apply Qnot_le_lt. intros Hle.
    assert (existsb id expired = true) as Hexp
      by (apply Hiff; by exists t, z).
    rewrite Hexp in Hload.
    destruct (py_truthy (PSeq requested)); [|done].
    by destruct (scopes_difference _ _).
Qed.

(** X8 ([load_tokens], [_deserialize_token_groups]): what a load that
    returns guarantees.  The result is a credential set, never an empty
    one: a dict of complete records, each filed under its own resource
    server, no two under the same one, the six keys of every record in the
    order of [TOKEN_KEYS].  When
    scopes were requested, every stored scope is among them; with the expiry
    check, every record expires strictly after the current time. *)
Theorem load_tokens_returns_credential_set section requested check_expired
    w tokens :
  load_tokens section (PSeq requested) check_expired w = Ok tokens →
  ∃ recs,
    tokens = credential_set recs
    ∧ recs ≠ []
    ∧ Forall complete recs
    ∧ NoDup (resource_server <$> recs)
    ∧ (requested ≠ [] →
       ∀ r s, r ∈ recs → s ∈ Py.split_ws (scope r) → s ∈ requested)
    ∧ (check_expired = true →
       ∀ r, r ∈ recs → (clock w < inject_Z (expires_at_seconds r))%Q).
Proof.
  intros Hload.
  destruct (load_tokens_Ok_checks _ _ _ _ _ Hload) as [Hscopes Hexp].
  apply load_tokens_Ok_stored in Hload.
  pose proof (stored_nonempty _ _ _ Hload) as Hnonempty.
  destruct (stored_credential_set _ _ _ Hload) as (recs&->&Hrecs&Hnd).
  exists recs. repeat split; try done.
  - by intros ->.
  - intros Hne r s Hr Hs. apply (Hscopes Hne).
    unfold stored_scopes. apply elem_of_concat.
    exists (Py.split_ws (scope r)). split; [done|].
    apply list_elem_of_fmap. exists (record_dict r). split; [done|].
    apply list_elem_of_fmap. exists (TStr (resource_server r), record_dict r).
    split; [done|]. apply list_elem_of_fmap. by exists r.
  - intros Hc r Hr. apply (Hexp Hc (record_dict r)); [|done].
    apply list_elem_of_fmap. exists (TStr (resource_server r), record_dict r).
    split; [done|]. apply list_elem_of_fmap. by exists r.
Qed.

Lemma load_tokens_returns_credential_set_witness :
  ∃ recs,
    credential_set [record_AB] = credential_set recs
    ∧ recs ≠ []
    ∧ Forall complete recs
    ∧ NoDup (resource_server <$> recs)
    ∧ (["A"; "B"; "C"] ≠ [] →
       ∀ r s, r ∈ recs → s ∈ Py.split_ws (scope r) → s ∈ ["A"; "B"; "C"])
    ∧ (true = true →
       ∀ r, r ∈ recs → (clock world_AB < inject_Z (expires_at_seconds r))%Q).
Proof.
  apply (load_tokens_returns_credential_set (Some "test") ["A"; "B"; "C"]
           true world_AB).
  vm_compute. reflexivity.
Defined.

(** ** Clearing *)

Lemma forM_remove_ok section names w :
  named_section section →
  has_section_everywhere w section →
  forM_ names (λ cfg_token_name,
      _ ← GlobusConfigParser.remove cfg_token_name (Some section); mret ()) w
    = (Ok (), fold_left (unset_world section) names w).
Proof.
  intros Hsec. revert w. induction names as [|n names IH]; intros w Hhas.
  - done.
  - rewrite forM__cons, M_bind_unfold, config_remove_ok by done.
    apply IH, has_section_unset_world.
Qed.

Lemma fold_unset_world section names w :
  parser (fold_left (unset_world section) names w)
    = fold_left (unset section) names (parser w)
  ∧ GlobusConfigParser._get_write_config
      (fold_left (unset_world section) names w)
    = fold_left (unset section) names (GlobusConfigParser._get_write_config w)
  ∧ clock (fold_left (unset_world section) names w) = clock w
  ∧ trace (fold_left (unset_world section) names w) = trace w
  ∧ log (fold_left (unset_world section) names w) = log w.
Proof.
  revert w. induction names as [|n names IH]; intros w; [done|].
  simpl. destruct (IH (unset_world section w n)) as (->&->&->&->&->). done.
Qed.

Lemma fold_unset section names p :
  ConfigParser.defaults (fold_left (unset section) names p)
    = ConfigParser.defaults p
  ∧ section_of (fold_left (unset section) names p) section
    = fold_left (λ m n, delete (ConfigParser.optionxform n) m) names
        (section_of p section)
  ∧ ∀ other, other ≠ section →
      ConfigParser.sections (fold_left (unset section) names p) !! other
      = ConfigParser.sections p !! other.
Proof.
  revert p. induction names as [|n names IH]; intros p; [done|].
  simpl. destruct (IH (unset section p n)) as (->&->&Hother).
  split; [done|]. split.
  - f_equal. unfold section_of. simpl. by rewrite lookup_insert_eq.
  - intros other Hne. rewrite Hother by done. simpl.
    by rewrite lookup_insert_ne.
Qed.

Lemma fold_delete_lookup (names : list string) (m : gmap string string) k :
  (k ∈ ConfigParser.optionxform <$> names →
   fold_left (λ m n, delete (ConfigParser.optionxform n) m) names m !! k
   = None)
  ∧ (m !! k = None →
     fold_left (λ m n, delete (ConfigParser.optionxform n) m) names m !! k
     = None).
Proof.
  revert m. induction names as [|n names IH]; intros m.
  - split; [by intros ?%elem_of_nil|done].
  - simpl.
    destruct (IH (delete (ConfigParser.optionxform n) m)) as [IH1 IH2].
    split.
    + intros [->|Hin]%elem_of_cons.
      * apply IH2, lookup_delete_eq.
      * by apply IH1.
    + intros Hm. apply IH2. rewrite lookup_delete_None. by right.
Qed.

Lemma fold_dict_set_keys {A} (f : A → string) (g : A → string) (l : list A)
    (acc : pydict string string) k :
  k ∈ dict_keys (fold_left (λ items a, dict_set (f a) (g a) items) l acc)
  ↔ k ∈ dict_keys acc ∨ k ∈ f <$> l.
Proof.
  revert acc. induction l as [|a l IH]; intros acc; simpl.
  - split; [by left|]. intros [?|?%elem_of_nil]; done.
  - rewrite IH, dict_set_keys, elem_of_cons. tauto.
Qed.

Lemma serialize_loop_keys tsets acc :
  Forall (λ t, ∃ rs, dict_get "resource_server" t = Some (TStr rs)) tsets →
  ∃ acc',
    serialize_loop tsets acc = Ok acc'
    ∧ (∀ k, k ∈ dict_keys acc.1 → k ∈ dict_keys acc'.1)
    ∧ ∀ t rs k,
        t ∈ tsets → dict_get "resource_server" t = Some (TStr rs) →
        k ∈ dict_keys t → _serialize_token rs k ∈ dict_keys acc'.1.
Proof.
  intros Hall. revert acc.
  induction Hall as [|t tsets [rs Hrs] Hall IH]; intros acc.
  - exists acc. split; [done|]. split; [done|].
    intros t rs k Hin. by apply elem_of_nil in Hin.
  - simpl. unfold serialize_token_set, resource_server_of. rewrite Hrs.
    cbn [mbind result_bind].
    edestruct IH as (acc'&->&Hkeep&Hnew). exists acc'. split; [done|].
    simpl in Hkeep. split.
    + intros k Hk. apply Hkeep.
      apply (fold_dict_set_keys (λ kv, _serialize_token rs kv.1)
               (λ kv, serialize_value kv.2)). by left.
    + intros t' rs' k [->|Hin]%elem_of_cons Hrs' Hk.
      * rewrite Hrs in Hrs'. injection Hrs' as <-. apply Hkeep.
        apply (fold_dict_set_keys (λ kv, _serialize_token rs kv.1)
                 (λ kv, serialize_value kv.2)). right.
        unfold dict_keys in Hk. apply list_elem_of_fmap in Hk as (kv&->&Hkv).
        apply list_elem_of_fmap. by exists kv.
      * by eapply Hnew.
Qed.

Lemma serialize_token_groups_keys (tokens : token_dict) :
  Forall (λ t, ∃ rs, dict_get "resource_server" t = Some (TStr rs))
    (dict_values tokens) →
  ∃ cfg,
    _serialize_token_groups tokens = Ok cfg
    ∧ ∀ t rs k,
        t ∈ dict_values tokens →
        dict_get "resource_server" t = Some (TStr rs) →
        k ∈ dict_keys t → _serialize_token rs k ∈ dict_keys cfg.
Proof.
  intros Hall. unfold _serialize_token_groups.
  destruct (serialize_loop_keys _ ([], []) Hall) as (acc&->&_&Hnew).
  eexists. split; [done|]. intros t rs k Ht Hrs Hk.
  apply dict_set_keys. right. by eapply Hnew.
Qed.

Lemma has_section_fold_unset_world section names w :
  has_section_everywhere w section →
  has_section_everywhere (fold_left (unset_world section) names w) section.
Proof.
  revert w. induction names as [|n names IH]; intros w Hhas; [done|].
  simpl. apply IH, has_section_unset_world.
Qed.

Lemma delete_tokens_ok (tokens : token_dict) section w cfg :
  tokens ≠ [] →
  _serialize_token_groups tokens = Ok cfg →
  named_section section →
  has_section_everywhere w section →
  delete_tokens tokens (Some section) w
    = (Ok true,
       fold_left (unset_world section)
         (dict_keys cfg ++ [CONFIG_TOKEN_GROUPS]) w).
Proof.
  intros Hne Hser Hsec Hhas. unfold delete_tokens.
  destruct tokens as [|kt tokens]; [done|].
  rewrite Hser. unfold lift. rewrite !M_bind_unfold.
  rewrite forM_remove_ok by done. rewrite M_bind_unfold.
  rewrite config_remove_ok
    by (done || by apply has_section_fold_unset_world).
  by rewrite fold_left_app.
Qed.

(** The section after the options of [tokens] and the group index were
    removed. *)
Lemma cleared_fold_unset section (tokens : token_dict)
    (cfg : pydict string string) p :
  (∀ t rs k,
     t ∈ dict_values tokens →
     dict_get "resource_server" t = Some (TStr rs) →
     k ∈ dict_keys t → _serialize_token rs k ∈ dict_keys cfg) →
  cleared (fold_left (unset section) (dict_keys cfg ++ [CONFIG_TOKEN_GROUPS])
             p) section tokens.
Proof.
  intros Hkeys. destruct (fold_unset section
                            (dict_keys cfg ++ [CONFIG_TOKEN_GROUPS]) p)
    as (_&Hsec&_).
  unfold cleared. rewrite Hsec. split.
  - apply (proj1 (fold_delete_lookup _ _ _)). rewrite fmap_app.
    apply elem_of_app. right. apply list_elem_of_here.
  - intros t rs k Ht Hrs Hk. apply (proj1 (fold_delete_lookup _ _ _)). rewrite fmap_app.
    apply elem_of_app. left. apply list_elem_of_fmap.
    eexists. split; [done|]. by eapply Hkeys.
Qed.

(** A section without a group index, in a parser whose defaults have none
    either, holds no credential set. *)
Lemma load_tokens_no_index section requested check w :
  section_of (parser w) section !! CONFIG_TOKEN_GROUPS = None →
  ConfigParser.defaults (parser w) !! CONFIG_TOKEN_GROUPS = None →
  load_tokens (Some section) requested check w = Raise ConfigError.
Proof.
  intros Hsec Hdef. unfold load_tokens, GlobusConfigParser.get_section,
    ConfigParser.has_section, ConfigParser.items, section_of in *.
  destruct (ConfigParser.sections (parser w) !! section) as [sd|] eqn:Hs.
  - rewrite bool_decide_eq_true_2 by done. cbn [mbind result_bind].
    destruct (bool_decide _); cbn [mbind result_bind]; [|done].
    unfold _deserialize_token_groups. rewrite lookup_omap.
    assert ((sd ∪ ConfigParser.defaults (parser w)) !! CONFIG_TOKEN_GROUPS
            = None) as ->; [|done].
    by apply lookup_union_None.
  - rewrite bool_decide_eq_false_2 by (by intros [? ?]). done.
Qed.

Lemma revoke_all_ok env (tokens : token_dict) w :
  Forall (λ t, is_Some (dict_get "access_token" t)) (dict_values tokens) →
  (∀ t tok, t ∈ dict_values tokens → dict_get "access_token" t = Some tok →
            oauth2_revoke_token env tok = None) →
  ∃ w', revoke_all env tokens w = (Ok (), w')
        ∧ same_config w w'
        ∧ trace w' = trace w ++ revoke_calls tokens.
Proof.
  unfold revoke_all, revoke_calls. intros Hall.
  revert w. induction Hall as [|t ts [tok Htok] Hall IH]; intros w Hrev.
  - exists w. split; [done|]. split; [apply same_config_refl|].
    by rewrite app_nil_r.
  - rewrite forM__cons. unfold revoke_one at 1. rewrite Htok.
    unfold debug, emit, lift. rewrite !M_bind_unfold.
    rewrite (Hrev t tok) by (done || apply list_elem_of_here). 
    unfold mret, M_ret.
    edestruct IH as (w'&->&Hsame&Htr).
    { intros t' tok' Hin. apply Hrev. by apply list_elem_of_further. }
    exists w'. split; [done|]. split.
    + destruct Hsame as (?&?&?). by repeat split.
    + rewrite Htr. cbn [trace]. rewrite fmap_cons, Htok.
      by rewrite <- app_assoc.
Qed.

Lemma write_file_fold_unset_world section names w :
  names ≠ [] →
  write_file (fold_left (unset_world section) names w)
    = Some (GlobusConfigParser._get_write_config
              (fold_left (unset_world section) names w)).
Proof.
  intros Hne. destruct (exists_last Hne) as (names'&n&->).
  by rewrite fold_left_app.
Qed.

Lemma stored_resource_servers w section tokens :
  stored w section tokens →
  Forall (λ t, ∃ rs, dict_get "resource_server" t = Some (TStr rs))
    (dict_values tokens)
  ∧ Forall (λ t, is_Some (dict_get "access_token" t)) (dict_values tokens).
Proof.
  intros Hst. destruct (stored_credential_set _ _ _ Hst) as (recs&->&_&_).
  split; apply Forall_forall; intros t Ht;
    apply list_elem_of_fmap in Ht as ([k t']&->&Hin);
    apply list_elem_of_fmap in Hin as (r&[= -> ->]&_); by eexists.
Qed.

(** The deletion that ends [clear_tokens], on a section that memory and
    the file both have. *)
Lemma delete_tokens_cleared section w0 w tokens :
  named_section section →
  has_section_everywhere w section →
  stored w0 (Some section) tokens →
  ∃ w' cfg,
    delete_tokens tokens (Some section) w = (Ok true, w')
    ∧ write_file w' = Some cfg
    ∧ cleared (parser w') section tokens
    ∧ cleared cfg section tokens
    ∧ ConfigParser.defaults (parser w') = ConfigParser.defaults (parser w)
    ∧ clock w' = clock w
    ∧ trace w' = trace w.
Proof.
  intros Hsec Hhas Hst.
  destruct (stored_resource_servers _ _ _ Hst) as [Hrs _].
  destruct (serialize_token_groups_keys tokens Hrs) as (cfg&Hser&Hkeys).
  set (names := dict_keys cfg ++ [CONFIG_TOKEN_GROUPS]).
  exists (fold_left (unset_world section) names w),
    (GlobusConfigParser._get_write_config
       (fold_left (unset_world section) names w)).
  split.
  { apply (delete_tokens_ok tokens section w cfg); try done.
    by eapply stored_nonempty. }
  destruct (fold_unset_world section names w) as (Hp&Hc&Hclock&Htrace&_).
  split.
  { apply write_file_fold_unset_world. subst names.
    intros Hnil. by apply app_eq_nil in Hnil as [_ ?]. }
  rewrite Hp, Hc.
  split; [by apply cleared_fold_unset|].
  split; [by apply cleared_fold_unset|].
  split; [apply fold_unset|]. done.
Qed.

(** X9 ([clear_tokens]): on a section that memory and the file both have
    and that holds a live credential set, with a service that accepts every
    revoke call, [clear_tokens] builds the client, revokes the access token
    of each record once, in the order of the set, and returns [True];
    afterwards neither memory nor the file holds the group index or an
    option of a record, and every load from the section raises
    [ConfigError] (the parser's defaults holding no group index of their
    own). *)
Theorem clear_tokens_revokes_then_deletes env section client_id w tokens :
  named_section section →
  has_section_everywhere w section →
  ConfigParser.defaults (parser w) !! CONFIG_TOKEN_GROUPS = None →
  load_tokens (Some section) (PSeq []) true w = Ok tokens →
  (∀ t tok, t ∈ dict_values tokens → dict_get "access_token" t = Some tok →
            oauth2_revoke_token env tok = None) →
  ∃ w' cfg,
    clear_tokens env (Some section) client_id w = (Ok true, w')
    ∧ trace w' = trace w ++ EvNativeAppAuthClient client_id
                            :: revoke_calls tokens
    ∧ write_file w' = Some cfg
    ∧ cleared (parser w') section tokens
    ∧ cleared cfg section tokens
    ∧ ∀ requested check_expired,
        load_tokens (Some section) requested check_expired w'
        = Raise ConfigError.
Proof.
  intros Hsec Hhas Hdef Hload Hrev.
  pose proof (load_tokens_Ok_stored _ _ _ _ _ Hload) as Hst.
  destruct (stored_resource_servers _ _ _ Hst) as [_ Hacc].
  unfold clear_tokens.
  set (w0 := (emit (EvNativeAppAuthClient client_id) w).2).
  assert (same_config w w0) as Hsame0 by done.
  rewrite (load_tokens_same_config w w0) by done. rewrite Hload.
  destruct (revoke_all_ok env tokens w0 Hacc Hrev) as (w1&->&Hsame1&Htr1).
  assert (has_section_everywhere w1 section) as Hhas1.
  { destruct Hsame1 as (Hp&Hf&_). destruct Hhas as [H1 H2].
    unfold has_section_everywhere, GlobusConfigParser._get_write_config.
    rewrite Hp, Hf. done. }
  destruct (delete_tokens_cleared section w w1 tokens Hsec Hhas1 Hst)
    as (w'&cfg&->&Hfile&Hmem&Hcfg&Hdefaults&_&Htr).
  exists w', cfg. split; [done|]. split.
  { rewrite Htr, Htr1. subst w0. simpl. by rewrite <- app_assoc. }
  repeat (split; [done|]). intros requested check.
  apply load_tokens_no_index; [apply Hmem|].
  rewrite Hdefaults. destruct Hsame1 as (->&_&_). done.
Qed.

(** X10 ([clear_tokens]): when the section holds a credential set that has
    expired, [clear_tokens] makes no revoke call at all: it builds the
    client, deletes the group index and the options of every record from
    memory and from the file, and returns [True]. *)
Theorem clear_tokens_expired_deletes env section client_id w tokens :
  named_section section →
  has_section_everywhere w section →
  load_tokens (Some section) (PSeq []) true w = Raise LoadedTokensExpired →
  load_tokens (Some section) (PSeq []) false w = Ok tokens →
  ∃ w' cfg,
    clear_tokens env (Some section) client_id w = (Ok true, w')
    ∧ trace w' = trace w ++ [EvNativeAppAuthClient client_id]
    ∧ write_file w' = Some cfg
    ∧ cleared (parser w') section tokens
    ∧ cleared cfg section tokens.
Proof.
  intros Hsec Hhas Hexp Hload.
  pose proof (load_tokens_Ok_stored _ _ _ _ _ Hload) as Hst.
  unfold clear_tokens.
  set (w0 := (emit (EvNativeAppAuthClient client_id) w).2).
  assert (same_config w w0) as Hsame0 by done.
  rewrite (load_tokens_same_config w w0) by done. rewrite Hexp.
  rewrite decide_True by done. cbv beta.
  rewrite (load_tokens_same_config w w0) by done. rewrite Hload.
  assert (has_section_everywhere w0 section) as Hhas0 by done.
  destruct (delete_tokens_cleared section w w0 tokens Hsec Hhas0 Hst)
    as (w'&cfg&->&Hfile&Hmem&Hcfg&_&_&Htr).
  exists w', cfg. by rewrite Htr.
Qed.

(** X11 ([clear_tokens]): when the load finds no credential set, that is,
    raises [ConfigError] itself, [clear_tokens] returns [False]; it has
    built the client, made no revoke call, and left the configuration, in
    memory and on disk, as it was. *)
Theorem clear_tokens_nothing_stored env section client_id w :
  load_tokens section (PSeq []) true w = Raise ConfigError →
  ∃ w',
    clear_tokens env section client_id w = (Ok false, w')
    ∧ same_config w w'
    ∧ trace w' = trace w ++ [EvNativeAppAuthClient client_id].
Proof.
  intros Hload. unfold clear_tokens.
  set (w0 := (emit (EvNativeAppAuthClient client_id) w).2).
  assert (same_config w w0) as Hsame0 by done.
  rewrite !(load_tokens_same_config w w0) by done. rewrite Hload.
  rewrite decide_False by done. simpl. eexists. split; [done|]. done.
Qed.

Lemma has_section_world_AB : has_section_everywhere world_AB "test".
Proof. split; eexists; vm_compute; reflexivity. Qed.

Lemma has_section_world_old : has_section_everywhere world_old "test".
Proof. split; eexists; vm_compute; reflexivity. Qed.

Lemma clear_tokens_revokes_then_deletes_witness :
  ∃ w' cfg,
    clear_tokens env_sample (Some "test") (PStr "client") world_AB
      = (Ok true, w')
    ∧ trace w' = trace world_AB ++ EvNativeAppAuthClient (PStr "client")
                   :: revoke_calls (credential_set [record_AB])
    ∧ write_file w' = Some cfg
    ∧ cleared (parser w') "test" (credential_set [record_AB])
    ∧ cleared cfg "test" (credential_set [record_AB])
    ∧ ∀ requested check_expired,
        load_tokens (Some "test") requested check_expired w'
        = Raise ConfigError.
Proof.
  apply (clear_tokens_revokes_then_deletes env_sample "test" (PStr "client")
           world_AB (credential_set [record_AB])).
  - by split.
  - apply has_section_world_AB.
  - reflexivity.
  - vm_compute. reflexivity.
  - reflexivity.
Defined.

Lemma clear_tokens_expired_deletes_witness :
  ∃ w' cfg,
    clear_tokens env_revoke_fails (Some "test") (PStr "client") world_old
      = (Ok true, w')
    ∧ trace w' = trace world_old ++ [EvNativeAppAuthClient (PStr "client")]
    ∧ write_file w' = Some cfg
    ∧ cleared (parser w') "test" (credential_set [record_old])
    ∧ cleared cfg "test" (credential_set [record_old]).
Proof.
  apply (clear_tokens_expired_deletes env_revoke_fails "test" (PStr "client")
           world_old (credential_set [record_old])).
  - by split.
  - apply has_section_world_old.
  - vm_compute. reflexivity.
  - vm_compute. reflexivity.
Defined.

Lemma clear_tokens_nothing_stored_witness :
  ∃ w',
    clear_tokens env_sample (Some "test") (PStr "client") empty_world
      = (Ok false, w')
    ∧ same_config empty_world w'
    ∧ trace w' = trace empty_world ++ [EvNativeAppAuthClient (PStr "client")].
Proof.
  apply (clear_tokens_nothing_stored env_sample (Some "test") (PStr "client")
           empty_world).
  reflexivity.
Defined.

Lemma config_remove_missing section w name :
  named_section section →
  ConfigParser.sections (GlobusConfigParser._get_write_config w) !! section
    = None →
  GlobusConfigParser.remove name (Some section) w = (Raise NoSectionError, w).
Proof.
  intros Hsec Hnone. unfold GlobusConfigParser.remove. simpl.
  unfold mbind, M_bind, lift.
  by rewrite (remove_option_missing _ _ _ Hsec Hnone).
Qed.

Lemma delete_tokens_missing (tokens : token_dict) section w cfg :
  tokens ≠ [] →
  _serialize_token_groups tokens = Ok cfg →
  named_section section →
  ConfigParser.sections (GlobusConfigParser._get_write_config w) !! section
    = None →
  delete_tokens tokens (Some section) w = (Raise NoSectionError, w).
Proof.
  intros Hne Hser Hsec Hnone. unfold delete_tokens.
  destruct tokens as [|kt tokens]; [done|].
  rewrite Hser. unfold lift. rewrite !M_bind_unfold.
  assert (cfg ≠ []) as Hcfg.
  { unfold _serialize_token_groups in Hser.
    destruct (serialize_loop _ _); [|done]. injection Hser as <-.
    apply dict_set_nonempty. }
  destruct cfg as [|[n v] cfg]; [done|].
  change (dict_keys ((n, v) :: cfg)) with (n :: dict_keys cfg).
  rewrite forM__cons, M_bind_unfold.
  by rewrite config_remove_missing.
Qed.

(** X12 ([clear_tokens], [GlobusConfigParser.remove]): a live credential
    set that memory holds in a section which the file being written lacks
    (it was read from another file, or there is no file yet) is revoked but
    not deleted: after the revoke calls went through, the first removal
    raises [NoSectionError] out of [clear_tokens], and memory and the file
    are as they were. *)
Theorem clear_tokens_section_not_in_file env section client_id w tokens :
  named_section section →
  ConfigParser.sections (GlobusConfigParser._get_write_config w) !! section
    = None →
  load_tokens (Some section) (PSeq []) true w = Ok tokens →
  (∀ t tok, t ∈ dict_values tokens → dict_get "access_token" t = Some tok →
            oauth2_revoke_token env tok = None) →
  ∃ w',
    clear_tokens env (Some section) client_id w = (Raise NoSectionError, w')
    ∧ same_config w w'
    ∧ trace w' = trace w ++ EvNativeAppAuthClient client_id
                            :: revoke_calls tokens.
Proof.
  intros Hsec Hnone Hload Hrev.
  pose proof (load_tokens_Ok_stored _ _ _ _ _ Hload) as Hst.
  destruct (stored_resource_servers _ _ _ Hst) as [Hrs Hacc].
  destruct (serialize_token_groups_keys tokens Hrs) as (cfg&Hser&_).
  unfold clear_tokens.
  set (w0 := (emit (EvNativeAppAuthClient client_id) w).2).
  assert (same_config w w0) as Hsame0 by done.
  rewrite (load_tokens_same_config w w0) by done. rewrite Hload.
  destruct (revoke_all_ok env tokens w0 Hacc Hrev) as (w1&->&Hsame1&Htr1).
  rewrite (delete_tokens_missing tokens section w1 cfg); try done.
  - exists w1. split; [done|]. split.
    + by etrans.
    + rewrite Htr1. subst w0. simpl. by rewrite <- app_assoc.
  - by eapply stored_nonempty.
  - destruct Hsame1 as (_&Hf&_).
    unfold GlobusConfigParser._get_write_config in *. by rewrite Hf.
Qed.

Lemma clear_tokens_section_not_in_file_witness :
  ∃ w',
    clear_tokens env_sample (Some "test") (PStr "client")
        (mkWorld (parser world_AB) None (clock world_AB) [] [])
      = (Raise NoSectionError, w')
    ∧ same_config (mkWorld (parser world_AB) None (clock world_AB) [] []) w'
    ∧ trace w' = [] ++ EvNativeAppAuthClient (PStr "client")
                   :: revoke_calls (credential_set [record_AB]).
Proof.
  apply (clear_tokens_section_not_in_file env_sample "test" (PStr "client")
           (mkWorld (parser world_AB) None (clock world_AB) [] [])
           (credential_set [record_AB])).
  - by split.
  - reflexivity.
  - vm_compute. reflexivity.
  - reflexivity.
Defined.

(** ** What a save leaves alone *)

Global Instance outside_preorder section : PreOrder (outside section).
Proof.
  split.
  - intros w. split; [done|]. intros p p' [[-> ->]|[-> ->]]; done.
  - intros w1 w2 w3 [Hc12 H12] [Hc23 H23]. split; [congruence|].
    intros p p' [[-> ->]|[-> ->]].
    + destruct (H12 (parser w1) (parser w2)) as [Hd Hs]; [by left|].
      destruct (H23 (parser w2) (parser w3)) as [Hd' Hs']; [by left|].
      split; [congruence|]. intros other Hne.
      by rewrite Hs', Hs.
    + destruct (H12 _ _ (or_intror (conj eq_refl eq_refl))) as [Hd Hs].
      destruct (H23 _ _ (or_intror (conj eq_refl eq_refl))) as [Hd' Hs'].
      split; [congruence|]. intros other Hne.
      by rewrite Hs', Hs.
Qed.






Lemma serialize_loop_raises tsets acc t e :
  t ∈ tsets → resource_server_of t = Raise e →
  ∃ e', serialize_loop tsets acc = Raise e'.
Proof.
  intros Hin Hrs. revert acc.
  induction tsets as [|t' tsets IH]; intros acc;
    [by apply elem_of_nil in Hin|].
  simpl. unfold serialize_token_set at 1.
  destruct (resource_server_of t') as [rs|e'] eqn:Hrs'.
  - cbn [mbind result_bind]. apply IH.
    apply elem_of_cons in Hin as [->|Hin]; [congruence|done].
  - by exists e'.
Qed.

Lemma serialize_loop_error tsets acc e :
  serialize_loop tsets acc = Raise e → e = KeyError ∨ e = AttributeError.
Proof.
  revert acc. induction tsets as [|t tsets IH]; intros acc; [done|].
  simpl. unfold serialize_token_set at 1, resource_server_of.
  destruct (dict_get "resource_server" t) as [[]|]; cbn [mbind result_bind];
    try (intros [= <-]; by auto); apply IH.
Qed.

(** X14 ([save_tokens], [_serialize_token_groups]): when one token set of
    the dict has no [resource_server] that is a str, the save raises before
    it writes anything: memory, the file, the trace and the log are what
    they were, also for the token sets that come before the bad one. *)
Theorem save_tokens_malformed_writes_nothing tokens section w t e :
  t ∈ dict_values tokens →
  resource_server_of t = Raise e →
  ∃ e', save_tokens tokens section w = (Raise e', w)
        ∧ (e' = KeyError ∨ e' = AttributeError).
Proof.
  intros Hin Hrs. unfold save_tokens, _serialize_token_groups.
  destruct (serialize_loop_raises _ ([], []) t e Hin Hrs) as (e'&He').
  exists e'. rewrite He'. split; [done|]. by eapply serialize_loop_error.
Qed.

Lemma save_tokens_malformed_writes_nothing_witness :
  ∃ e', save_tokens
          [(TStr "a.org", record_dict record_AB);
           (TStr "b.org", [("access_token", TStr "token")])]
          (Some "test") empty_world = (Raise e', empty_world)
        ∧ (e' = KeyError ∨ e' = AttributeError).
Proof.
  apply (save_tokens_malformed_writes_nothing _ (Some "test") empty_world
           [("access_token", TStr "token")] KeyError).
  - apply list_elem_of_further, list_elem_of_here.
  - reflexivity.
Defined.

(** ** Saving over an earlier save *)







(** * The JSON file adapter: a store and what is read after it *)

Lemma handle_formats_Ok data read_data :
  _handle_formats read_data = Ok data →
  data = read_data
  ∧ dict_get "format_version" data = Some (JStr "1.0")
  ∧ ∃ by_rs, dict_get "by_rs" data = Some (JObj by_rs).
Proof.
  unfold _handle_formats, unsupported, is_dict.
  destruct (dict_get "format_version" read_data) as [[]|] eqn:Hv; try done.
  destruct (bool_decide _) eqn:Hsup; [done|].
  destruct (dict_get "by_rs" read_data) as [[]|] eqn:Hb; try done.
  intros [= <-]. split; [done|]. split; [|by eexists].
  apply bool_decide_eq_false in Hsup. f_equal. f_equal.
  destruct (decide (s = "1.0")) as [->|Hne]; [done|].
  exfalso. apply Hsup. unfold supported_versions.
  by intros ->%list_elem_of_singleton.
Qed.

Lemma handle_formats_error read_data e :
  _handle_formats read_data = Raise e → e = ValueError.
Proof.
  unfold _handle_formats.
  destruct (unsupported _); [by intros [= <-]|].
  destruct (negb _); [by intros [= <-]|done].
Qed.

(** What [_load] returns has a supported format and a [by_rs] dict. *)
Lemma load_Ok version s data :
  _load version s = Ok data →
  dict_get "format_version" data = Some (JStr "1.0")
  ∧ ∃ by_rs, dict_get "by_rs" data = Some (JObj by_rs).
Proof.
  unfold _load. destruct (_raw_load s) as [read_data|e] eqn:Hraw.
  - intros Hh. by apply handle_formats_Ok in Hh as (_&?&?).
  - destruct e; try done. intros [= <-]. split; [done|]. by eexists.
Qed.

Lemma load_error version s e : _load version s = Raise e → e = ValueError.
Proof.
  unfold _load, _raw_load.
  destruct (at_filename s) as [f|]; [|done].
  destruct (text f) as [|[]]; try (by intros [= <-]).
  apply handle_formats_error.
Qed.

Lemma load_document version s f data :
  at_filename s = Some f → text f = Document (JObj data) →
  dict_get "format_version" data = Some (JStr "1.0") →
  is_Some (dict_get "by_rs" data ≫= λ v, match v with
                                          | JObj d => Some d
                                          | _ => None
                                          end) →
  _load version s = Ok data.
Proof.
  intros Hf Ht Hv [by_rs Hb]. unfold _load, _raw_load. rewrite Hf, Ht.
  unfold _handle_formats. rewrite Hv.
  destruct (dict_get "by_rs" data) as [[]|]; try done.
Qed.

Lemma store_run version incoming s data by_rs :
  _load version s = Ok data →
  dict_get "by_rs" data = Some (JObj by_rs) →
  let written := dict_set "by_rs" (JObj (dict_update by_rs incoming)) data in
  let m := match at_filename s with
           | Some f => mode f
           | None => 384%N (* 0o600 *)
           end in
  store version incoming s
    = (Ok (), mkFs (umask s) (Some (mkFile m (Document (JObj written))))
                (states s ++ [Some (mkFile m NotJSON);
                              Some (mkFile m (Document (JObj written)))])).
Proof.
  intros Hload Hb. simpl. unfold store. rewrite Hload, Hb.
  unfold user_only_umask, set_umask, mbind, F_bind, open_w, json_dump,
    put_file.
  destruct (at_filename s) as [f|]; simpl; by rewrite <- app_assoc.
Qed.

Lemma dict_get_update_in {K V} `{EqDecision K} (k : K) (v : V) d new :
  NoDup (dict_keys new) → dict_get k new = Some v →
  dict_get k (dict_update d new) = Some v.
Proof.
  revert d. induction new as [|[k' v'] new IH]; intros d Hnd Hget; [done|].
  unfold dict_keys in Hnd. simpl in Hnd. apply NoDup_cons in Hnd as [Hk' Hnd].
  rewrite dict_update_cons. simpl in *.
  destruct (decide (k = k')) as [->|Hne].
  - injection Hget as ->. rewrite dict_get_update_ne by done.
    apply dict_get_set_eq.
  - by apply IH.
Qed.

Lemma load_after_store version s m data by_rs merged :
  dict_get "format_version" data = Some (JStr "1.0") →
  dict_get "by_rs" data = Some (JObj by_rs) →
  at_filename s
    = Some (mkFile m (Document (JObj (dict_set "by_rs" (JObj merged) data)))) →
  _load version s = Ok (dict_set "by_rs" (JObj merged) data)
  ∧ get_by_resource_server version s = Ok (JObj merged).
Proof.
  intros Hv Hb Hf.
  assert (_load version s = Ok (dict_set "by_rs" (JObj merged) data)) as Hl.
  { apply (load_document version s _ _ Hf eq_refl).
    - by rewrite dict_get_set_ne.
    - rewrite dict_get_set_eq. by eexists. }
  split; [done|]. unfold get_by_resource_server. rewrite Hl.
  cbn [mbind result_bind]. by rewrite dict_get_set_eq.
Qed.

(** X16 ([SimpleJSONFileAdapter.store], [get_token_data]): when the file
    is missing or holds a valid document, [store] goes through, and what
    [get_token_data] then reads is, for a resource server of the response,
    the token data of the response, and for any other resource server what
    it read before the store: the earlier entry, or [None]. *)
Theorem store_then_get_token_data version incoming (s : fs) data :
  _load version s = Ok data →
  NoDup (dict_keys incoming) →
  ∃ s',
    store version incoming s = (Ok (), s')
    ∧ (∀ rs tokens,
         dict_get rs incoming = Some tokens →
         get_token_data version rs s' = Ok (Some tokens))
    ∧ (∀ rs, rs ∉ dict_keys incoming →
             get_token_data version rs s' = get_token_data version rs s).
Proof.
  intros Hload Hnd.
  destruct (load_Ok _ _ _ Hload) as (Hv&by_rs&Hb).
  pose proof (store_run version incoming s data by_rs Hload Hb) as Hstore.
  simpl in Hstore.
  match type of Hstore with
  | _ = (_, ?s') =>
      exists s';
      destruct (load_after_store version s' _ data by_rs _ Hv Hb eq_refl)
        as [_ Hget]
  end.
  split; [done|]. unfold get_token_data. rewrite Hget. cbn [mbind result_bind]. split.
  - intros rs tokens Hrs. f_equal. by apply dict_get_update_in.
  - intros rs Hrs. unfold get_by_resource_server. rewrite Hload.
    cbn [mbind result_bind]. rewrite Hb. cbn [mbind result_bind]. f_equal.
    by apply dict_get_update_ne.
Qed.

Lemma store_then_get_token_data_witness :
  ∃ s',
    store "3.0.0" [("b.example.org", tokens_b)] fs_document_a = (Ok (), s')
    ∧ (∀ rs tokens,
         dict_get rs [("b.example.org", tokens_b)] = Some tokens →
         get_token_data "3.0.0" rs s' = Ok (Some tokens))
    ∧ (∀ rs, rs ∉ dict_keys [("b.example.org", tokens_b)] →
             get_token_data "3.0.0" rs s'
             = get_token_data "3.0.0" rs fs_document_a).
Proof.
  apply (store_then_get_token_data "3.0.0" [("b.example.org", tokens_b)]
           fs_document_a
           [("by_rs", JObj [("a.example.org", tokens_a)]);
            ("format_version", JStr "1.0");
            ("globus-sdk.version", JStr "3.0.0")]).
  - reflexivity.
  - apply NoDup_singleton.
Defined.

(** X17 ([SimpleJSONFileAdapter.store], [_load]): [store] either raises
    [ValueError], exactly when the file cannot be loaded, and then has
    written nothing and left the umask alone; or it returns, the umask of
    the process is what it was, and the file holds a document that loads
    again.  It raises nothing else. *)
Theorem store_all_or_nothing version incoming (s : fs) :
  (_load version s = Raise ValueError
   ∧ store version incoming s = (Raise ValueError, s))
  ∨ (is_ok (_load version s) = true
     ∧ ∃ s', store version incoming s = (Ok (), s')
             ∧ umask s' = umask s
             ∧ is_ok (_load version s') = true).
Proof.
  destruct (_load version s) as [data|e] eqn:Hload.
  - right. split; [done|].
    destruct (load_Ok _ _ _ Hload) as (Hv&by_rs&Hb).
    pose proof (store_run version incoming s data by_rs Hload Hb) as Hstore.
    simpl in Hstore.
    match type of Hstore with
    | _ = (_, ?s') =>
        exists s';
        destruct (load_after_store version s' _ data by_rs _ Hv Hb eq_refl)
          as [Hl _]
    end.
    split; [done|]. split; [done|]. by rewrite Hl.
  - left. pose proof (load_error _ _ _ Hload) as ->. split; [done|].
    unfold store. by rewrite Hload.
Qed.

Lemma dict_set_same {K V} `{EqDecision K} (k : K) (v : V) d :
  dict_get k d = Some v → dict_set k v d = d.
Proof.
  induction d as [|[k' v'] d IH]; simpl; [done|].
  destruct (decide (k = k')) as [->|Hne].
  - by intros [= ->].
  - intros Hget. by rewrite IH.
Qed.

Lemma dict_set_set {K V} `{EqDecision K} (k : K) (v v' : V) d :
  dict_set k v (dict_set k v' d) = dict_set k v d.
Proof.
  induction d as [|[k' v''] d IH]; simpl.
  - by rewrite decide_True.
  - destruct (decide (k = k')) as [->|Hne]; simpl.
    + by rewrite decide_True.
    + rewrite decide_False by done. by rewrite IH.
Qed.

Lemma dict_update_same {K V} `{EqDecision K} (d new : pydict K V) :
  (∀ k v, (k, v) ∈ new → dict_get k d = Some v) → dict_update d new = d.
Proof.
  induction new as [|[k v] new IH]; intros Hall; [done|].
  rewrite dict_update_cons. simpl.
  rewrite dict_set_same by (apply Hall, list_elem_of_here).
  apply IH. intros k' v' Hin. by apply Hall, list_elem_of_further.
Qed.

Lemma elem_dict_get_NoDup {K V} `{EqDecision K} (d : pydict K V) k v :
  NoDup (dict_keys d) → (k, v) ∈ d → dict_get k d = Some v.
Proof.
  unfold dict_keys. induction d as [|[k' v'] d IH]; simpl;
    [by intros _ ?%elem_of_nil|].
  intros [Hk' Hnd]%NoDup_cons [[= -> ->]|Hin]%elem_of_cons.
  - by rewrite decide_True.
  - rewrite decide_False; [by apply IH|]. intros ->. apply Hk'.
    apply list_elem_of_fmap. by exists (k', v).
Qed.

(** X18 ([SimpleJSONFileAdapter.store]): storing the same response a
    second time changes nothing: the file holds the same document, with the
    same permissions, as after the first store. *)
Theorem store_twice version incoming (s : fs) data :
  _load version s = Ok data →
  NoDup (dict_keys incoming) →
  ∃ s1 s2,
    store version incoming s = (Ok (), s1)
    ∧ store version incoming s1 = (Ok (), s2)
    ∧ at_filename s2 = at_filename s1
    ∧ umask s2 = umask s.
Proof.
  intros Hload Hnd.
  destruct (load_Ok _ _ _ Hload) as (Hv&by_rs&Hb).
  pose proof (store_run version incoming s data by_rs Hload Hb) as Hstore.
  simpl in Hstore.
  match type of Hstore with
  | _ = (_, ?s') =>
      exists s';
      destruct (load_after_store version s' _ data by_rs _ Hv Hb eq_refl)
        as [Hl _];
      pose proof (store_run version incoming s' _ _ Hl
                    (dict_get_set_eq _ _ _)) as Hstore2
  end.
  simpl in Hstore2. eexists. split; [done|]. split; [exact Hstore2|].
  simpl. split; [|done]. do 4 f_equal.
  rewrite dict_set_set. f_equal. f_equal. apply dict_update_same.
  intros k v Hin. apply dict_get_update_in; [done|].
  by apply elem_dict_get_NoDup.
Qed.

Lemma store_twice_witness :
  ∃ s1 s2,
    store "3.0.0" [("b.example.org", tokens_b)] fs_document_a = (Ok (), s1)
    ∧ store "3.0.0" [("b.example.org", tokens_b)] s1 = (Ok (), s2)
    ∧ at_filename s2 = at_filename s1
    ∧ umask s2 = umask fs_document_a.
Proof.
  apply (store_twice "3.0.0" [("b.example.org", tokens_b)] fs_document_a
           [("by_rs", JObj [("a.example.org", tokens_a)]);
            ("format_version", JStr "1.0");
            ("globus-sdk.version", JStr "3.0.0")]).
  - reflexivity.
  - apply NoDup_singleton.
Defined.

(** * The login: which calls it makes, and what it leaves alone *)

Lemma bind_Ok_inv {A B} (m : M A) (k : A → M B) w b w' :
  (m ≫= k) w = (Ok b, w') →
  ∃ a w1, m w = (Ok a, w1) ∧ k a w1 = (Ok b, w').
Proof.
  rewrite M_bind_unfold. destruct (m w) as [[a|e] w1]; [|done].
  intros Hk. by exists a, w1.
Qed.

Lemma preserves_bind_result (R : relation world) `{!PreOrder R} {A B}
    (m : M A) (k : A → M B) :
  preserves R m →
  (∀ a, (∃ w w', m w = (Ok a, w')) → preserves R (k a)) →
  preserves R (m ≫= k).
Proof.
  intros Hm Hk w r w'. unfold mbind, M_bind.
  destruct (m w) as [[a|e] w1] eqn:Hmw.
  - intros Hkw. transitivity w1; [by eapply Hm|]. eapply Hk; [|done].
    by exists w, w1.
  - intros [= <- <-]. by eapply Hm.
Qed.

Section flow.
Context (R : relation world) `{!PreOrder R}.
Context (Pev : event → Prop) (section : option string) (saves : bool).
Hypothesis Hemit : ∀ ev, Pev ev → preserves R (emit ev).
Hypothesis Hdebug : ∀ msg, preserves R (debug msg).
Hypothesis Hset :
  saves = true →
  ∀ name value, preserves R (GlobusConfigParser.set name value section).
Hypothesis Hremove :
  ∀ name, preserves R (GlobusConfigParser.remove name section).

Lemma flow_save_tokens tokens :
  saves = true → preserves R (save_tokens tokens section).
Proof.
  intros Hsaves. unfold save_tokens.
  apply preserves_bind; [apply _|apply preserves_lift; apply _|].
  intros cfg. apply preserves_forM_; [apply _|]. intros kv.
  by apply Hset.
Qed.

Lemma flow_revoke_all env tokens :
  (∀ tok, Pev (EvRevokeToken tok)) → preserves R (revoke_all env tokens).
Proof.
  intros Hrev. unfold revoke_all. apply preserves_forM_; [apply _|].
  intros t. unfold revoke_one.
  apply preserves_bind; [apply _|apply Hdebug|]. intros _.
  apply preserves_bind; [apply _|apply preserves_lift; apply _|]. intros tok.
  apply preserves_bind; [apply _|by apply Hemit|]. intros _.
  destruct (oauth2_revoke_token env tok).
  - apply preserves_raise; apply _.
  - apply preserves_ret; apply _.
Qed.

Lemma flow_delete_tokens tokens :
  preserves R (delete_tokens tokens section).
Proof.
  unfold delete_tokens. destruct tokens; [apply preserves_ret; apply _|].
  apply preserves_bind; [apply _|apply preserves_lift; apply _|]. intros cfg.
  apply preserves_bind; [apply _| |].
  - apply preserves_forM_; [apply _|]. intros name.
    apply preserves_bind; [apply _|apply Hremove|].
    intros _. apply preserves_ret; apply _.
  - intros _. apply preserves_bind; [apply _|apply Hremove|].
    intros _. apply preserves_ret; apply _.
Qed.

Lemma flow_clear_tokens env client_id :
  Pev (EvNativeAppAuthClient client_id) →
  (∀ tok, Pev (EvRevokeToken tok)) →
  preserves R (clear_tokens env section client_id).
Proof.
  intros Hclient Hrev w r w'. unfold clear_tokens.
  set (w1 := (emit (EvNativeAppAuthClient client_id) w).2).
  assert (R w w1) as H1 by (by apply (Hemit _ Hclient w (Ok ()))).
  assert (∀ e tokens w2 r w',
    (if decide (e = LoadedTokensExpired)
     then λ w, match load_tokens section (PSeq []) false w with
               | Ok tokens => delete_tokens tokens section w
               | Raise e' => (Raise e', w)
               end
     else if is_ConfigError e
          then _ ← debug "ConfigError"; delete_tokens tokens section
          else raise e) w2 = (r, w') → R w2 w') as Hhandler.
  { intros e tokens w2 r2 w2'. destruct (decide _).
    - destruct (load_tokens _ _ _ _).
      + apply flow_delete_tokens.
      + intros [= <- <-]. reflexivity.
    - destruct (is_ConfigError e).
      + apply preserves_bind; [apply _|apply Hdebug|].
        intros _. apply flow_delete_tokens.
      + apply preserves_raise; apply _. }
  destruct (load_tokens section (PSeq []) true w1) as [tokens|e].
  - destruct (revoke_all env tokens w1) as [[[]|e] w2] eqn:Hrevoke.
    + intros Hdel. transitivity w1; [done|]. transitivity w2.
      * by eapply flow_revoke_all.
      * by eapply flow_delete_tokens.
    + intros Hh. transitivity w1; [done|]. transitivity w2.
      * by eapply flow_revoke_all.
      * by eapply Hhandler.
  - intros Hh. transitivity w1; [done|]. by eapply Hhandler.
Qed.

Section options.
Context (env : collaborators) (opts : pydict string pyval)
        (config_section : pyval).
Hypothesis Hsection : as_section config_section = section.
Hypothesis Hsaves : is_True (opt opts "save_tokens") = saves.
Hypothesis Hlicensed : ∀ ev, licensed env opts config_section ev → Pev ev.

Lemma flow_prompt_login :
  preserves R
    (_prompt_login env
       (oauth2_get_authorize_url env (opt opts "additional_auth_params"))
       (opt opts "no_browser")).
Proof.
  unfold _prompt_login, is_False.
  destruct (decide (opt opts "no_browser" = PBool false)) as [Hnb|Hnb].
  - rewrite bool_decide_eq_true_2 by done.
    destruct (is_remote_session env) eqn:Hremote; simpl.
    + apply Hemit, Hlicensed. simpl. left. split; [done|]. by right.
    + apply Hemit, Hlicensed. simpl. by rewrite Hremote.
  - rewrite bool_decide_eq_false_2 by done. simpl.
    apply Hemit, Hlicensed. simpl. left. split; [done|]. by left.
Qed.

(** What follows the first call of [auth_flow], the one that announces
    the clear. *)
Lemma flow_after_clear_event :
  preserves R
    (_ ← clear_tokens env (as_section config_section) (opt opts "client_id");
     _ ← emit (EvNativeAppAuthClient (opt opts "client_id"));
     _ ← emit (EvStartFlow (opt opts "requested_scopes")
                 (opt opts "redirect_uri") (opt opts "refresh_tokens")
                 (opt opts "prefill_named_grant"));
     _ ← emit (EvGetAuthorizeUrl (opt opts "additional_auth_params"));
     let url :=
       oauth2_get_authorize_url env (opt opts "additional_auth_params") in
     auth_code ←
       (if is_False (opt opts "no_local_server") then
          _ ← emit (EvStartLocalServer (opt opts "server_hostname")
                      (opt opts "server_port"));
          _ ← _prompt_login env url (opt opts "no_browser");
          _ ← emit EvWaitForCode;
          lift (wait_for_code env)
        else
          _ ← _prompt_login env url (opt opts "no_browser");
          _ ← emit (EvSafePrint
                      "Enter the resulting Authorization Code here: ");
          _ ← emit EvInput;
          mret (input env));
     _ ← emit (EvExchangeCode auth_code);
     tokens_by_resource_server ←
       lift (oauth2_exchange_code_for_tokens env auth_code);
     _ ← (if is_True (opt opts "save_tokens") then
            _ ← emit (EvSaveTokens tokens_by_resource_server config_section);
            save_tokens tokens_by_resource_server
              (as_section config_section)
          else mret ());
     mret tokens_by_resource_server).
Proof.
  rewrite Hsection.
  apply preserves_bind; [apply _| |intros _].
  { apply flow_clear_tokens; [by apply Hlicensed|].
    intros tok. by apply Hlicensed. }
  apply preserves_bind; [apply _|by apply Hemit, Hlicensed|intros _].
  apply preserves_bind; [apply _|by apply Hemit, Hlicensed|intros _].
  apply preserves_bind; [apply _|by apply Hemit, Hlicensed|intros _].
  cbv zeta.
  apply preserves_bind_result; [apply _| |intros auth_code Hcode].
  { destruct (is_False (opt opts "no_local_server")) eqn:Hlisten.
    - apply preserves_bind; [apply _| |intros _].
      { apply Hemit, Hlicensed. simpl. by rewrite Hlisten. }
      apply preserves_bind; [apply _|apply flow_prompt_login|intros _].
      apply preserves_bind; [apply _| |intros _].
      { apply Hemit, Hlicensed. simpl. by rewrite Hlisten. }
      apply preserves_lift; apply _.
    - apply preserves_bind; [apply _|apply flow_prompt_login|intros _].
      apply preserves_bind; [apply _| |intros _].
      { apply Hemit, Hlicensed. simpl. right. by rewrite Hlisten. }
      apply preserves_bind; [apply _| |intros _].
      { apply Hemit, Hlicensed. simpl. by rewrite Hlisten. }
      apply preserves_ret; apply _. }
  apply preserves_bind; [apply _| |intros _].
  { apply Hemit, Hlicensed. simpl.
    destruct Hcode as (w&w'&Hcode).
    destruct (is_False (opt opts "no_local_server")).
    - apply bind_Ok_inv in Hcode as (?&?&_&Hcode).
      apply bind_Ok_inv in Hcode as (?&?&_&Hcode).
      apply bind_Ok_inv in Hcode as (?&?&_&Hcode).
      by injection Hcode as -> _.
    - apply bind_Ok_inv in Hcode as (?&?&_&Hcode).
      apply bind_Ok_inv in Hcode as (?&?&_&Hcode).
      apply bind_Ok_inv in Hcode as (?&?&_&Hcode).
      by injection Hcode as <- _. }
  apply preserves_bind_result;
    [apply _|apply preserves_lift; apply _|intros tokens Htokens].
  apply preserves_bind; [apply _| |intros _; apply preserves_ret; apply _].
  destruct (decide (opt opts "save_tokens" = PBool true)) as [Hst|Hst].
  - unfold is_True in *. rewrite bool_decide_eq_true_2 in * by done.
    apply preserves_bind; [apply _| |intros _].
    + apply Hemit, Hlicensed. simpl. split; [done|]. split; [done|].
      exists auth_code. destruct Htokens as (w&w'&Htokens).
      by injection Htokens as -> _.
    + by apply flow_save_tokens.
  - unfold is_True. rewrite bool_decide_eq_false_2 by done.
    apply preserves_ret; apply _.
Qed.

Lemma flow_auth_flow : preserves R (auth_flow env opts config_section).
Proof.
  unfold auth_flow.
  apply preserves_bind; [apply _|by apply Hemit, Hlicensed|intros _].
  apply flow_after_clear_event.
Qed.

Lemma flow_load_or_login :
  preserves R (load_or_login env opts config_section).
Proof.
  intros w r w'. unfold load_or_login.
  destruct (load_tokens _ _ _ w) as [tokens|e].
  - intros [= <- <-]. reflexivity.
  - destruct (is_ConfigError e).
    + apply preserves_bind; [apply _|apply Hdebug|]. intros _.
      apply flow_auth_flow.
    + intros [= <- <-]. reflexivity.
Qed.

End options.

Lemma flow_native_auth env kwargs :
  as_section (resolve_section (resolve_opts env kwargs)) = section →
  is_True (opt (resolve_opts env kwargs) "save_tokens") = saves →
  (∀ ev, licensed env (resolve_opts env kwargs)
           (resolve_section (resolve_opts env kwargs)) ev → Pev ev) →
  preserves R (native_auth env kwargs).
Proof.
  intros Hsection Hsaves Hlicensed. unfold native_auth.
  apply preserves_if; [apply preserves_raise; apply _|]. cbv zeta.
  destruct (is_False (opt (resolve_opts env kwargs) "force_login"))
    eqn:Hforce.
  - apply preserves_bind; [apply _| |intros _].
    + apply Hemit, Hlicensed. simpl. by rewrite Hforce.
    + by apply flow_load_or_login.
  - by apply flow_auth_flow.
Qed.

End flow.

(** ** The three readings of a run *)

Global Instance emits_preorder P : PreOrder (emits P).
Proof.
  split.
  - intros w. exists []. split; [|constructor].
    unfold emitted. by rewrite app_nil_r.
  - intros w1 w2 w3 (e1&H1&F1) (e2&H2&F2). exists (e1 ++ e2). split.
    + unfold emitted in *. by rewrite H2, H1, app_assoc.
    + by apply Forall_app.
Qed.

Lemma same_trace_emits P w w' : trace w' = trace w → emits P w w'.
Proof.
  intros Htr. exists []. split; [|constructor]. unfold emitted.
  by rewrite app_nil_r.
Qed.

Lemma emits_calls P w w' : emits P w w' → Forall P (calls w w').
Proof.
  intros (evs&Hevs&HP). unfold calls, emitted in *.
  by rewrite Hevs, drop_app_length.
Qed.

Lemma config_set_trace name value section w r w' :
  GlobusConfigParser.set name value section w = (r, w') →
  trace w' = trace w ∧ log w' = log w ∧ clock w' = clock w.
Proof.
  destruct section as [section|]; simpl.
  - unfold mbind, M_bind, lift, GlobusConfigParser._save,
      GlobusConfigParser.set_parser.
    repeat (match goal with
            | |- context [match ?x with Ok _ => _ | Raise _ => _ end] =>
                destruct x; simpl
            end);
      by intros [= <- <-].
  - by intros [= <- <-].
Qed.

Lemma config_remove_trace name section w r w' :
  GlobusConfigParser.remove name section w = (r, w') →
  trace w' = trace w ∧ log w' = log w ∧ clock w' = clock w.
Proof.
  unfold GlobusConfigParser.remove, mbind, M_bind, lift,
    GlobusConfigParser._save, GlobusConfigParser.set_parser.
  repeat (match goal with
          | |- context [match ?x with Ok _ => _ | Raise _ => _ end] =>
              destruct x as [[]|]; simpl
          end);
    by intros [= <- <-].
Qed.

(** Every call of a run of [native_auth] is one that the resolved options
    license. *)
Lemma native_auth_licensed env kwargs w r w' :
  native_auth env kwargs w = (r, w') →
  Forall (licensed env (resolve_opts env kwargs)
            (resolve_section (resolve_opts env kwargs))) (calls w w').
Proof.
  intros Hrun. apply emits_calls. revert w r w' Hrun.
  set (P := licensed env (resolve_opts env kwargs)
              (resolve_section (resolve_opts env kwargs))).
  apply (flow_native_auth (emits P) P
           (as_section (resolve_section (resolve_opts env kwargs)))
           (is_True (opt (resolve_opts env kwargs) "save_tokens")));
    try done.
  - intros ev Hev w r w' [= <- <-]. exists [ev]. split; [done|].
    by constructor.
  - intros msg w r w' [= <- <-]. by apply same_trace_emits.
  - intros _ name value w r w' Hset. apply same_trace_emits.
    by apply config_set_trace in Hset as [? _].
  - intros name w r w' Hrm. apply same_trace_emits.
    by apply config_remove_trace in Hrm as [? _].
Qed.







(** X20 ([native_auth], [_prompt_login]): the browser is opened only for
    a local session whose [no_browser] option is [False], and only on the
    authorize URL of the flow; and a run that opens the browser does not
    also print the URL for pasting. *)
Theorem native_auth_browser env kwargs w r w' url :
  let opts := resolve_opts env kwargs in
  let authorize_url :=
    oauth2_get_authorize_url env (opt opts "additional_auth_params") in
  native_auth env kwargs w = (r, w') →
  EvBrowserOpen url ∈ calls w w' →
  opt opts "no_browser" = PBool false
  ∧ is_remote_session env = false
  ∧ url = authorize_url
  ∧ EvSafePrint ("Please paste the following URL in a browser: "
                 +:+ newline +:+ authorize_url) ∉ calls w w'.
Proof.
  intros opts authorize_url Hrun Hopen.
  pose proof (native_auth_licensed _ _ _ _ _ Hrun) as Hlic.
  rewrite Forall_forall in Hlic.
  destruct (Hlic _ Hopen) as (Hnb&Hremote&Hurl).
  repeat (split; [done|]). intros Hprint.
  destruct (Hlic _ Hprint) as [[_ [Hnb'|Hremote']]|[Hmsg _]].
  - done.
  - congruence.
  - discriminate Hmsg.
Qed.

Lemma native_auth_browser_witness :
  opt (resolve_opts env_sample []) "no_browser" = PBool false
  ∧ is_remote_session env_sample = false
  ∧ "https://auth.example.org/authorize"
    = oauth2_get_authorize_url env_sample
        (opt (resolve_opts env_sample []) "additional_auth_params")
  ∧ EvSafePrint ("Please paste the following URL in a browser: "
                 +:+ newline
                 +:+ oauth2_get_authorize_url env_sample
                       (opt (resolve_opts env_sample [])
                          "additional_auth_params"))
    ∉ calls empty_world (native_auth env_sample [] empty_world).2.
Proof.
  apply (native_auth_browser env_sample [] empty_world
           (native_auth env_sample [] empty_world).1
           (native_auth env_sample [] empty_world).2
           "https://auth.example.org/authorize").
  - apply surjective_pairing.
  - vm_compute. apply list_elem_of_In. simpl. tauto.
Defined.

(** X21 ([native_auth]): where the authorization code comes from.  With
    [no_local_server] set to [False] a run never reads the terminal, and a
    code it exchanges is the one the local server waited for; with any other
    value it never starts the server nor waits for it, and a code it
    exchanges is the line read from the terminal. *)
Theorem native_auth_code_source env kwargs w r w' :
  let opts := resolve_opts env kwargs in
  native_auth env kwargs w = (r, w') →
  (opt opts "no_local_server" = PBool false →
   (EvInput ∉ calls w w')
   ∧ ∀ auth_code, EvExchangeCode auth_code ∈ calls w w' →
                  wait_for_code env = Ok auth_code)
  ∧ (opt opts "no_local_server" ≠ PBool false →
     (EvWaitForCode ∉ calls w w')
     ∧ (∀ hostname port, EvStartLocalServer hostname port ∉ calls w w')
     ∧ ∀ auth_code, EvExchangeCode auth_code ∈ calls w w' →
                    auth_code = input env).
Proof.
  intros opts Hrun.
  pose proof (native_auth_licensed _ _ _ _ _ Hrun) as Hlic.
  rewrite Forall_forall in Hlic. fold opts in Hlic. split.
  - intros Hlisten. split.
    + intros Hin. apply Hlic in Hin. simpl in Hin. unfold is_False in Hin.
      by rewrite bool_decide_eq_true_2 in Hin.
    + intros auth_code Hin. apply Hlic in Hin. simpl in Hin.
      unfold is_False in Hin. by rewrite bool_decide_eq_true_2 in Hin.
  - intros Hlisten. split; [|split].
    + intros Hin. apply Hlic in Hin. simpl in Hin. unfold is_False in Hin.
      by rewrite bool_decide_eq_false_2 in Hin.
    + intros hostname port Hin. apply Hlic in Hin as [Hin _].
      unfold is_False in Hin. by rewrite bool_decide_eq_false_2 in Hin.
    + intros auth_code Hin. apply Hlic in Hin. simpl in Hin.
      unfold is_False in Hin. by rewrite bool_decide_eq_false_2 in Hin.
Qed.

Lemma native_auth_code_source_witness :
  (opt (resolve_opts env_sample [("no_local_server", PBool true)])
     "no_local_server" = PBool false →
   (EvInput ∉ calls empty_world
      (native_auth env_sample [("no_local_server", PBool true)]
         empty_world).2)
   ∧ ∀ auth_code,
       EvExchangeCode auth_code
         ∈ calls empty_world
             (native_auth env_sample [("no_local_server", PBool true)]
                empty_world).2 →
       wait_for_code env_sample = Ok auth_code)
  ∧ (opt (resolve_opts env_sample [("no_local_server", PBool true)])
       "no_local_server" ≠ PBool false →
     (EvWaitForCode ∉ calls empty_world
        (native_auth env_sample [("no_local_server", PBool true)]
           empty_world).2)
     ∧ (∀ hostname port,
          EvStartLocalServer hostname port
            ∉ calls empty_world
                (native_auth env_sample [("no_local_server", PBool true)]
                   empty_world).2)
     ∧ ∀ auth_code,
         EvExchangeCode auth_code
           ∈ calls empty_world
               (native_auth env_sample [("no_local_server", PBool true)]
                  empty_world).2 →
         auth_code = input env_sample).
Proof.
  apply (native_auth_code_source env_sample
           [("no_local_server", PBool true)] empty_world
           (native_auth env_sample [("no_local_server", PBool true)]
              empty_world).1).
  apply surjective_pairing.
Defined.

(** ** What a login leaves alone *)

Global Instance only_removes_preorder : PreOrder only_removes.
Proof.
  split.
  - intros w. split; [done|]. intros p p' [[-> ->]|[-> ->]]; done.
  - intros w1 w2 w3 [Hc12 H12] [Hc23 H23]. split; [congruence|].
    intros p p' Hp.
    assert (∃ q, ((p = parser w1 ∧ q = parser w2)
                  ∨ (p = GlobusConfigParser._get_write_config w1
                     ∧ q = GlobusConfigParser._get_write_config w2))
                 ∧ ((q = parser w2 ∧ p' = parser w3)
                    ∨ (q = GlobusConfigParser._get_write_config w2
                       ∧ p' = GlobusConfigParser._get_write_config w3)))
      as (q&Hq1&Hq2).
    { destruct Hp as [[-> ->]|[-> ->]]; eexists; split; eauto. }
    destruct (H12 _ _ Hq1) as [Hd Hs]. destruct (H23 _ _ Hq2) as [Hd' Hs'].
    split; [by trans (ConfigParser.defaults q)|].
    intros s. by trans (section_of q s).
Qed.

Lemma same_config_only_removes w w' : same_config w w' → only_removes w w'.
Proof.
  intros (Hp&Hf&Hc). split; [done|].
  unfold GlobusConfigParser._get_write_config. rewrite Hp, Hf.
  intros p p' [[-> ->]|[-> ->]]; done.
Qed.

Lemma remove_option_only_removes p section name removed p' :
  ConfigParser.remove_option p section name = Ok (removed, p') →
  ConfigParser.defaults p' ⊆ ConfigParser.defaults p
  ∧ ∀ s, section_of p' s ⊆ section_of p s.
Proof.
  unfold ConfigParser.remove_option. destruct (decide _).
  - intros [= _ <-]. simpl. split; [apply delete_subseteq|done].
  - destruct (ConfigParser.sections p !! section) as [sd|] eqn:Hsd;
      [|done].
    intros [= _ <-]. simpl. split; [done|]. intros s. unfold section_of.
    simpl. destruct (decide (s = section)) as [->|Hne].
    + rewrite lookup_insert_eq, Hsd. simpl. apply delete_subseteq.
    + by rewrite lookup_insert_ne.
Qed.


(** A removal, seen as a change of the file and of memory by
    [remove_option]: both, the file alone when memory lacks the section, or
    neither. *)
Lemma config_remove_cases name section w r w' :
  GlobusConfigParser.remove name section w = (r, w') →
  clock w' = clock w
  ∧ (parser w' = parser w
     ∨ ∃ removed,
         ConfigParser.remove_option (parser w) (default "" section) name
         = Ok (removed, parser w'))
  ∧ (GlobusConfigParser._get_write_config w'
     = GlobusConfigParser._get_write_config w
     ∨ ∃ removed,
         ConfigParser.remove_option (GlobusConfigParser._get_write_config w)
           (default "" section) name
         = Ok (removed, GlobusConfigParser._get_write_config w')).
Proof.
  unfold GlobusConfigParser.remove, mbind, M_bind, lift,
    GlobusConfigParser._save, GlobusConfigParser.set_parser.
  destruct (ConfigParser.remove_option
              (GlobusConfigParser._get_write_config w) _ name)
    as [[removed cfg]|e] eqn:Hcfg; simpl.
  - destruct (ConfigParser.remove_option (parser w) _ name)
      as [[removed' p]|e] eqn:Hp; simpl; intros [= <- <-]; simpl.
    + split; [done|]. split; right; by eexists.
    + split; [done|]. split; [by left|]. right. by eexists.
  - intros [= <- <-]. split; [done|]. split; by left.
Qed.

Lemma only_removes_remove section name :
  preserves only_removes (GlobusConfigParser.remove name section).
Proof.
  intros w r w' Hrm.
  destruct (config_remove_cases _ _ _ _ _ Hrm) as (Hc&Hp&Hf).
  split; [done|]. intros p p' [[-> ->]|[-> ->]].
  - destruct Hp as [->|[removed Hp]]; [done|].
    by eapply remove_option_only_removes.
  - destruct Hf as [->|[removed Hf]]; [done|].
    by eapply remove_option_only_removes.
Qed.


(** X22 ([native_auth]): unless [save_tokens] is [True], a run of
    [native_auth] writes nothing to the configuration: whatever it returns
    or raises, every option that memory or the file holds afterwards was
    there before, with the same value.  (What it may do is remove: the
    login clears the stored tokens of its section first.) *)
Theorem native_auth_writes_only_on_request env kwargs w r w' :
  opt (resolve_opts env kwargs) "save_tokens" ≠ PBool true →
  native_auth env kwargs w = (r, w') →
  only_removes w w'.
Proof.
  intros Hsave. revert w r w'.
  apply (flow_native_auth only_removes (λ _, True)
           (as_section (resolve_section (resolve_opts env kwargs)))
           false); try done.
  - intros ev _ w r w' [= <- <-]. by apply same_config_only_removes.
  - intros msg w r w' [= <- <-]. by apply same_config_only_removes.
  - intros name. apply only_removes_remove.
  - unfold is_True. by rewrite bool_decide_eq_false_2.
Qed.

Lemma native_auth_writes_only_on_request_witness :
  only_removes world_old (native_auth env_sample [] world_old).2.
Proof.
  apply (native_auth_writes_only_on_request env_sample [] world_old
           (native_auth env_sample [] world_old).1).
  - discriminate.
  - apply surjective_pairing.
Defined.



(** ** A login, and the next one *)













Lemma auth_flow_result env opts config_section w tokens w' :
  auth_flow env opts config_section w = (Ok tokens, w') →
  ∃ auth_code,
    oauth2_exchange_code_for_tokens env auth_code = Ok tokens
    ∧ (if is_False (opt opts "no_local_server")
       then wait_for_code env = Ok auth_code
       else auth_code = input env).
Proof.
  unfold auth_flow. intros Hrun.
  do 5 apply bind_Ok_inv in Hrun as (?&?&_&Hrun).
  cbv zeta in Hrun.
  apply bind_Ok_inv in Hrun as (auth_code&?&Hcode&Hrun).
  apply bind_Ok_inv in Hrun as (?&?&_&Hrun).
  apply bind_Ok_inv in Hrun as (tokens'&?&Hexchange&Hrun).
  apply bind_Ok_inv in Hrun as (?&?&_&Hrun).
  injection Hrun as -> _. injection Hexchange as Hexchange _.
  exists auth_code. split; [done|].
  destruct (is_False (opt opts "no_local_server")).
  - do 3 apply bind_Ok_inv in Hcode as (?&?&_&Hcode).
    by injection Hcode as -> _.
  - do 3 apply bind_Ok_inv in Hcode as (?&?&_&Hcode).
    by injection Hcode as <- _.
Qed.

(** X25 ([native_auth]): where a returned credential set comes from.
    Whatever [native_auth] returns is either what the store held for the
    resolved section, read with the caller's scopes and expiry check, the
    configuration untouched; or the answer of the service to the
    authorization code, the code being the one the local server waited for
    or the line read from the terminal.  It is the first only if
    [force_login] is [False]. *)
Theorem native_auth_result_source env kwargs w tokens w' :
  let opts := resolve_opts env kwargs in
  native_auth env kwargs w = (Ok tokens, w') →
  (opt opts "force_login" = PBool false
   ∧ load_tokens (as_section (resolve_section opts))
       (opt opts "requested_scopes")
       (is_True (opt opts "check_tokens_expired")) w = Ok tokens
   ∧ same_config w w')
  ∨ ∃ auth_code,
      oauth2_exchange_code_for_tokens env auth_code = Ok tokens
      ∧ if is_False (opt opts "no_local_server")
        then wait_for_code env = Ok auth_code
        else auth_code = input env.
Proof.
  intros opts. unfold native_auth. fold opts.
  destruct (any_str _); [done|]. cbv zeta.
  destruct (is_False (opt opts "force_login")) eqn:Hforce.
  - rewrite M_bind_unfold.
    set (w0 := (emit (EvLoadTokens (resolve_section opts)
                        (opt opts "requested_scopes")
                        (opt opts "check_tokens_expired")) w).2).
    change (emit _ w) with (Ok (), w0).
    assert (same_config w w0) as Hs by done.
    unfold load_or_login.
    rewrite (load_tokens_same_config w w0) by done.
    destruct (load_tokens _ _ _ w) as [loaded|e].
    + intros [= <- <-]. left. unfold is_False in Hforce.
      by apply bool_decide_eq_true in Hforce.
    + destruct (is_ConfigError e); [|done].
      rewrite M_bind_unfold. simpl. intros Hrun. right.
      by eapply auth_flow_result.
  - intros Hrun. right. by eapply auth_flow_result.
Qed.

Lemma native_auth_result_source_witness :
  (opt (resolve_opts env_sample []) "force_login" = PBool false
   ∧ load_tokens (as_section (resolve_section (resolve_opts env_sample [])))
       (opt (resolve_opts env_sample []) "requested_scopes")
       (is_True (opt (resolve_opts env_sample []) "check_tokens_expired"))
       world_old = Ok (credential_set [record_AB])
   ∧ same_config world_old (native_auth env_sample [] world_old).2)
  ∨ ∃ auth_code,
      oauth2_exchange_code_for_tokens env_sample auth_code
      = Ok (credential_set [record_AB])
      ∧ if is_False (opt (resolve_opts env_sample []) "no_local_server")
        then wait_for_code env_sample = Ok auth_code
        else auth_code = input env_sample.
Proof.
  apply (native_auth_result_source env_sample [] world_old
           (credential_set [record_AB])
           (native_auth env_sample [] world_old).2).
  vm_compute. reflexivity.
Defined.
